(** * obsidian-ollama-plugin: the stream-to-cursor inserter of [main.ts]

    A shallow embedding of [src/main.ts]: the "Send to Ollama" handler, its
    placeholder step, its streaming loop with the cursor update, its catch
    block, and the settings load/save pair.  The Obsidian editor, the ollama
    client, the notification sink and the plugin data store are the host's;
    they are modelled here by their contract, in the small. *)

From Stdlib Require Import NArith Ascii String.
From stdpp Require Import gmap strings list fin_maps.

Local Open Scope nat_scope.

(** ** JavaScript strings

    A JavaScript string is a sequence of UTF-16 code units and [s.length]
    counts code units, so a string is a list of code units here. *)

Abbreviation jsstring := (list N).

(** The line feed, ["\n"]. *)
Definition LF : N := 10%N.

(** An ASCII literal of the source as a JavaScript string. *)
Fixpoint lit (s : string) : jsstring :=
  match s with
  | EmptyString => []
  | String a r => N_of_ascii a :: lit r
  end.

Arguments lit : simpl never.

(** [s.split(sep)] for a separator of one code unit: the pieces between the
    occurrences of [sep]; never empty: the empty string gives one empty
    piece. *)
Fixpoint split (sep : N) (s : jsstring) : list jsstring :=
  match s with
  | [] => [[]]
  | c :: r =>
      if N.eqb c sep then [] :: split sep r
      else match split sep r with
           | l :: ls => (c :: l) :: ls
           | [] => [[c]]
           end
  end.

(** The carriage return, ["\r"]. *)
Definition CR : N := 13%N.

(** The line breaks of a text as the editor stores it when the text is
    inserted: the editor cuts an inserted string at CR LF, at a lone CR and
    at LF, and its document joins the lines with LF. *)
Fixpoint normalize_breaks (s : jsstring) : jsstring :=
  match s with
  | [] => []
  | c :: r =>
      if N.eqb c CR then
        LF :: match r with
              | c' :: r' => if N.eqb c' LF then normalize_breaks r' else normalize_breaks r
              | [] => []
              end
      else c :: normalize_breaks r
  end.

(** A value read from a property: a string, or [undefined] when the object
    does not have the property. *)
Inductive jsval := Undefined | Str (s : jsstring).

(** [v + s] for a string [s]: [ToString(v)] followed by [s]. *)
Definition js_add (v : jsval) (s : jsstring) : jsstring :=
  match v with
  | Undefined => lit "undefined" ++ s
  | Str t => t ++ s
  end.

(** An object whose properties hold strings, as [ModelSettings] and the
    stored [data.json] are. *)
Abbreviation obj := (gmap string jsstring).

Definition get_prop (o : obj) (k : string) : jsval :=
  match o !! k with
  | Some s => Str s
  | None => Undefined
  end.

(** [Object.assign(target, ...sources)]: own properties of each source are
    copied onto the target, later sources win; a [null] source is skipped.
    The one property name that assignment treats otherwise, ["__proto__"],
    is not a settings field and is left out of what is proved of this. *)
Definition Object_assign (target : obj) (sources : list (option obj)) : obj :=
  foldl (fun t s => match s with Some o => o ∪ t | None => t end) target sources.

(** ** Positions and the host editor *)

Record EditorPosition := { line : nat; ch : nat }.

(** The position reached from [p] after the text [s] has been read: a line
    feed starts the next line at column 0, any other code unit is one column. *)
Fixpoint pos_after (s : jsstring) (p : EditorPosition) : EditorPosition :=
  match s with
  | [] => p
  | c :: r =>
      if N.eqb c LF then pos_after r {| line := S (line p); ch := 0 |}
      else pos_after r {| line := line p; ch := S (ch p) |}
  end.

Definition origin : EditorPosition := {| line := 0; ch := 0 |}.

(** The editor's [offsetToPos]: line and column of a document offset. *)
Definition offsetToPos (doc : jsstring) (o : nat) : EditorPosition :=
  pos_after (take o doc) origin.

(** The editor's [posToOffset], clipping as the editor does: a line past the
    last one gives the end of the document, a column past the end of its
    line gives the end of that line. *)
Fixpoint offset_at (doc : jsstring) (ln col : nat) : nat :=
  match doc with
  | [] => 0
  | c :: r =>
      if N.eqb c LF then
        match ln with
        | 0 => 0
        | S n => S (offset_at r n col)
        end
      else
        match ln, col with
        | 0, 0 => 0
        | 0, S m => S (offset_at r 0 m)
        | S _, _ => S (offset_at r ln col)
        end
  end.

Definition posToOffset (doc : jsstring) (p : EditorPosition) : nat :=
  offset_at doc (line p) (ch p).

(** The text buffer with its selection; the selection is a pair of document
    offsets, [getCursor("from")] and [getCursor("to")] are its two ends in
    document order. *)
Record Editor := { value : jsstring; sel_anchor : nat; sel_head : nat }.

Definition sel_from (e : Editor) : nat := sel_anchor e `min` sel_head e.
Definition sel_to (e : Editor) : nat := sel_anchor e `max` sel_head e.

Definition getSelection (e : Editor) : jsstring :=
  take (sel_to e - sel_from e) (drop (sel_from e) (value e)).

Inductive CursorSide := From | To.

Definition getCursor (side : CursorSide) (e : Editor) : EditorPosition :=
  match side with
  | From => offsetToPos (value e) (sel_from e)
  | To => offsetToPos (value e) (sel_to e)
  end.

(** [getLine(n)]: the text of line [n], without its line break. *)
Definition getLine (doc : jsstring) (n : nat) : option jsstring :=
  split LF doc !! n.

(** [replaceRange(text, from, to?)] on the document: the text between the
    two offsets is replaced, and with [to] left out the text is inserted at
    [from]; the inserted text is stored with its line breaks as LF.  An
    inverted range is refused, as the editor's change set does. *)
Definition replaceRange (text : jsstring) (from : EditorPosition)
    (to : option EditorPosition) (doc : jsstring) : option jsstring :=
  let a := posToOffset doc from in
  let b := match to with Some t => posToOffset doc t | None => a end in
  if b <? a then None
  else Some (take a doc ++ normalize_breaks text ++ drop b doc).

Record MarkdownView := { editor : option Editor }.

(** ** The generation client *)

Record Message := { role : jsstring; content : jsstring }.

Record ChatRequest := { model : jsval; messages : list Message; stream : bool }.

(** One streamed part; the handler reads [part.message.content]. *)
Record ChatPart := { message : Message }.

(** What a [catch] receives: an error object with its [name].  The client
    throws error objects only; a thrown [null] or [undefined], on which
    [err.name] would itself throw, is not a value of this type. *)
Record JsError := { name : jsstring; description : jsstring }.

(** The async iterator returned by [ollama.chat]: it yields a part, ends, or
    throws (a network failure, or the [AbortError] that [ollama.abort()]
    raises in the pending iteration).  These are the streams that come to
    an end; the handler waits on a stream that never does, and such a
    session is not followed here. *)
Inductive ChatStream :=
  | SDone
  | SPart (part : ChatPart) (rest : ChatStream)
  | SThrow (err : JsError).

(** The promise of [ollama.chat]: rejected, or resolved to the iterator. *)
Inductive ChatResult :=
  | Rejected (err : JsError)
  | Resolved (response : ChatStream).

(** ** The world of the handler *)

(** A call of [editor.replaceRange], with the positions as they read when
    the call was made. *)
Record Edit :=
  { edit_text : jsstring; edit_from : EditorPosition; edit_to : option EditorPosition }.

Inductive LogEntry := LogError (err : JsError).

(** Everything the handler reads or changes: the active view with its
    editor, the position objects it holds references to, the notices shown,
    the console, the calls made to the client and to [replaceRange], the
    plugin's [settings] and the stored plugin data ([None] when nothing was
    saved, where [loadData] gives [null]).  [selection_after] is the host's
    way of moving the selection when the document changes: given the editor
    before the change, the two offsets of the replaced range and the text
    put there, the new anchor and head.  One session is followed from
    its start to its end: what other tasks of the host might do to the
    buffer between two chunks is outside this model. *)
Record World := {
  activeView : option MarkdownView;
  heap : list EditorPosition;
  notices : list jsstring;
  console : list LogEntry;
  chat_calls : list ChatRequest;
  edits : list Edit;
  settings : obj;
  data : option obj;
  selection_after : Editor -> nat -> nat -> jsstring -> nat * nat
}.

Definition set_editor (e : Editor) (w : World) : World :=
  {| activeView := Some {| editor := Some e |}; heap := heap w;
     notices := notices w; console := console w; chat_calls := chat_calls w;
     edits := edits w; settings := settings w; data := data w;
     selection_after := selection_after w |}.

Definition set_heap (h : list EditorPosition) (w : World) : World :=
  {| activeView := activeView w; heap := h;
     notices := notices w; console := console w; chat_calls := chat_calls w;
     edits := edits w; settings := settings w; data := data w;
     selection_after := selection_after w |}.

Definition add_notice (s : jsstring) (w : World) : World :=
  {| activeView := activeView w; heap := heap w;
     notices := notices w ++ [s]; console := console w; chat_calls := chat_calls w;
     edits := edits w; settings := settings w; data := data w;
     selection_after := selection_after w |}.

Definition add_log (l : LogEntry) (w : World) : World :=
  {| activeView := activeView w; heap := heap w;
     notices := notices w; console := console w ++ [l]; chat_calls := chat_calls w;
     edits := edits w; settings := settings w; data := data w;
     selection_after := selection_after w |}.

Definition add_chat_call (r : ChatRequest) (w : World) : World :=
  {| activeView := activeView w; heap := heap w;
     notices := notices w; console := console w; chat_calls := chat_calls w ++ [r];
     edits := edits w; settings := settings w; data := data w;
     selection_after := selection_after w |}.

Definition add_edit (e : Edit) (w : World) : World :=
  {| activeView := activeView w; heap := heap w;
     notices := notices w; console := console w; chat_calls := chat_calls w;
     edits := edits w ++ [e]; settings := settings w; data := data w;
     selection_after := selection_after w |}.

Definition set_settings (s : obj) (w : World) : World :=
  {| activeView := activeView w; heap := heap w;
     notices := notices w; console := console w; chat_calls := chat_calls w;
     edits := edits w; settings := s; data := data w;
     selection_after := selection_after w |}.

Definition set_data (d : option obj) (w : World) : World :=
  {| activeView := activeView w; heap := heap w;
     notices := notices w; console := console w; chat_calls := chat_calls w;
     edits := edits w; settings := settings w; data := d;
     selection_after := selection_after w |}.

(** The editor of the active view, when there is one. *)
Definition the_editor (w : World) : option Editor :=
  match activeView w with
  | Some v => editor v
  | None => None
  end.

(** ** The monad of the handler: state, with exceptions that keep the state *)

Inductive outcome (A : Type) :=
  | Ok (a : A)
  | Throw (err : JsError).
Arguments Ok {A} a.
Arguments Throw {A} err.

Definition M (A : Type) : Type := World -> outcome A * World.

#[export] Instance M_ret : MRet M := fun A a w => (Ok a, w).

#[export] Instance M_bind : MBind M := fun A B f m w =>
  match m w with
  | (Ok a, w') => f a w'
  | (Throw e, w') => (Throw e, w')
  end.

Definition throw {A} (e : JsError) : M A := fun w => (Throw e, w).

(** [try { body } catch (err) { handler }] *)
Definition try_catch (body : M unit) (handler : JsError -> M unit) : M unit :=
  fun w =>
    match body w with
    | (Ok a, w') => (Ok a, w')
    | (Throw e, w') => handler e w'
    end.

Definition RangeError : JsError :=
  {| name := lit "RangeError"; description := [] |}.

Definition TypeError : JsError :=
  {| name := lit "TypeError"; description := [] |}.

(** References to position objects: an index into the heap. *)
Abbreviation loc := nat.

#[export] Instance EditorPosition_inhabited : Inhabited EditorPosition :=
  populate origin.

(** A new object. *)
Definition alloc (p : EditorPosition) : M loc :=
  fun w => (Ok (length (heap w)), set_heap (heap w ++ [p]) w).

(** Reading the object behind a reference. *)
Definition deref (l : loc) : M EditorPosition :=
  fun w => (Ok (heap w !!! l), w).

(** Assigning to the fields of the object behind a reference. *)
Definition update (l : loc) (f : EditorPosition -> EditorPosition) : M unit :=
  fun w => (Ok (), set_heap (<[l := f (heap w !!! l)]> (heap w)) w).

(** [new Notice(text)] *)
Definition Notice (text : jsstring) : M unit :=
  fun w => (Ok (), add_notice text w).

(** [console.error(err)] *)
Definition console_error (err : JsError) : M unit :=
  fun w => (Ok (), add_log (LogError err) w).

(** [this.app.workspace.getActiveViewOfType(MarkdownView)] *)
Definition getActiveViewOfType : M (option MarkdownView) :=
  fun w => (Ok (activeView w), w).

(** The methods of [view.editor], on the editor of the active view; with no
    such editor the method call is a [TypeError]. *)
Definition with_editor {A} (k : Editor -> M A) : M A :=
  fun w =>
    match the_editor w with
    | Some e => k e w
    | None => (Throw TypeError, w)
    end.

Definition editor_getSelection : M jsstring :=
  with_editor (fun e => mret (getSelection e)).

(** [editor.getCursor(side)]: a new position object. *)
Definition editor_getCursor (side : CursorSide) : M loc :=
  with_editor (fun e => alloc (getCursor side e)).

Definition editor_getLine (n : nat) : M jsstring :=
  with_editor (fun e =>
    match getLine (value e) n with
    | Some l => mret l
    | None => throw RangeError
    end).

(** The optional third argument of [replaceRange], read when given. *)
Definition deref_opt (to : option loc) : M (option EditorPosition) :=
  match to with
  | Some l => p ← deref l; mret (Some p)
  | None => mret None
  end.

(** The editor after a change that leaves the document as [doc].  A change
    that replaces nothing by nothing leaves the selection alone; any other
    change moves it as the host does. *)
Definition after_edit (host : Editor -> nat -> nat -> jsstring -> nat * nat)
    (e : Editor) (text : jsstring) (f : EditorPosition) (t : option EditorPosition)
    (doc : jsstring) : Editor :=
  let a := posToOffset (value e) f in
  let b := match t with Some t => posToOffset (value e) t | None => a end in
  let moved :=
    if bool_decide (a = b ∧ normalize_breaks text = [])
    then (sel_anchor e, sel_head e)
    else host e a b (normalize_breaks text) in
  {| value := doc; sel_anchor := moved.1; sel_head := moved.2 |}.

Arguments after_edit : simpl never.

Definition editor_replaceRange (text : jsstring) (from : loc) (to : option loc) : M unit :=
  with_editor (fun e =>
    f ← deref from;
    t ← deref_opt to;
    match replaceRange text f t (value e) return M unit with
    | Some doc => fun w =>
        (Ok (),
         add_edit {| edit_text := text; edit_from := f; edit_to := t |}
           (set_editor (after_edit (selection_after w) e text f t doc) w))
    | None => throw RangeError
    end).

Definition get_settings : M obj := fun w => (Ok (settings w), w).

Definition put_settings (s : obj) : M unit := fun w => (Ok (), set_settings s w).

(** [this.loadData()] and [this.saveData(o)] of the host; the stored JSON of
    an object of strings reads back as the same object. *)
Definition loadData : M (option obj) := fun w => (Ok (data w), w).

Definition saveData (o : obj) : M unit := fun w => (Ok (), set_data (Some o) w).

(** [ollama.chat(request)]: the call is recorded, and the client's answer
    is either the iterator or the rejection, thrown at the [await]. *)
Definition ollama_chat (client : ChatRequest -> ChatResult) (request : ChatRequest)
    : M ChatStream :=
  fun w =>
    match client request with
    | Resolved response => (Ok response, add_chat_call request w)
    | Rejected err => (Throw err, add_chat_call request w)
    end.

(** [for await (const part of response) body] *)
Fixpoint for_await (response : ChatStream) (body : ChatPart -> M unit) : M unit :=
  match response with
  | SDone => mret ()
  | SPart part rest => body part;; for_await rest body
  | SThrow err => throw err
  end.

(** ** The plugin, [main.ts] *)

Definition DEFAULT_SETTINGS : obj :=
  {[ "model"%string := lit "llama3.2"; "systemPrompt"%string := [] ]}.

(** The hourglass U+23F3, then the text. *)
Definition PLACEHOLDER : jsstring := 0x23F3%N :: lit " Generating response...".

Definition NO_EDITOR : jsstring := lit "No active editor found.".
Definition NO_SELECTION : jsstring := lit "Please select some text to send to Ollama.".
Definition ABORTED : jsstring := lit "Aborted all requests".

(** The cross mark U+274C, then the text. *)
Definition COMM_ERROR : jsstring := 0x274C%N :: lit " Error communicating with Ollama.".

(** Lines 39-47: the placeholder is written over the selection, the length
    of its line is read back, and the line is cleared from [from] on. *)
Definition placeholder_step (from to : loc) : M unit :=
  editor_replaceRange PLACEHOLDER from (Some to);;
  fp ← deref from;
  ln ← editor_getLine (line fp);
  let lineLength := length ln in
  end_ ← alloc {| line := line fp; ch := lineLength |};
  editor_replaceRange [] from (Some end_).

(** Lines 67-78, the body of the loop: the chunk is inserted at [outputPos]
    and the object behind [outputPos] is advanced in place. *)
Definition apply_chunk (outputPos : loc) (part : ChatPart) : M unit :=
  let chunk := content (message part) in
  editor_replaceRange chunk outputPos None;;
  let lines := split LF chunk in
  if length lines =? 1 then
    update outputPos (fun p => {| line := line p; ch := ch p + length (lines !!! 0) |})
  else
    update outputPos (fun p => {| line := line p + (length lines - 1); ch := ch p |});;
    update outputPos (fun p =>
      {| line := line p; ch := length (lines !!! (length lines - 1)) |}).

(** Lines 80-87. *)
Definition catch_block (err : JsError) : M unit :=
  if bool_decide (name err = lit "AbortError") then
    Notice ABORTED
  else
    console_error err;;
    Notice COMM_ERROR.

(** Lines 58-79, the body of the [try]. *)
Definition try_block (client : ChatRequest -> ChatResult) (s : obj)
    (msg : Message) (outputPos : loc) : M unit :=
  response ← ollama_chat client
    {| model := get_prop s "model"; messages := [msg]; stream := true |};
  for_await response (apply_chunk outputPos).

(** Lines 20-88, the "Send to Ollama" handler. *)
Definition send_to_ollama (client : ChatRequest -> ChatResult) : M unit :=
  view ← getActiveViewOfType;
  match view with
  | Some {| editor := Some _ |} =>
      prompt ← editor_getSelection;
      match prompt with
      | [] => Notice NO_SELECTION
      | _ :: _ =>
          from ← editor_getCursor From;
          to ← editor_getCursor To;
          placeholder_step from to;;
          fp ← deref from;
          outputPos ← alloc fp;
          s ← get_settings;
          let msg :=
            {| role := lit "user";
               content := js_add (get_prop s "systemPrompt") [LF; LF] ++ prompt |} in
          try_catch (try_block client s msg outputPos) catch_block
      end
  | _ => Notice NO_EDITOR
  end.

(** Lines 102-104. *)
Definition loadSettings : M unit :=
  d ← loadData;
  put_settings (Object_assign ∅ [Some DEFAULT_SETTINGS; d]).

(** Lines 106-108. *)
Definition saveSettings : M unit :=
  s ← get_settings;
  saveData s.

(** Lines 129-132 and 140-143, the [onChange] of the two settings fields. *)
Definition onChange (field : string) (v : jsstring) : M unit :=
  s ← get_settings;
  put_settings (<[field := v]> s);;
  saveSettings.

(** ** Vocabulary of the properties *)

(** The number of line feeds in a chunk. *)
Definition newlines (s : jsstring) : nat := length (filter (fun c => c = LF) s).

(** The text a streamed part carries. *)
Definition chunk_of (part : ChatPart) : jsstring := content (message part).

(** A part carrying a given chunk, as the server sends it. *)
Definition part_of (chunk : jsstring) : ChatPart :=
  {| message := {| role := lit "assistant"; content := chunk |} |}.

(** A stream that yields the given parts and goes on as [rest]. *)
Definition parts_then (parts : list ChatPart) (rest : ChatStream) : ChatStream :=
  foldr SPart rest parts.

(** All the text of a sequence of parts, in order. *)
Definition text_of (parts : list ChatPart) : jsstring :=
  concat (map chunk_of parts).

(** A position is at or after another, in document order. *)
Definition pos_le (p q : EditorPosition) : Prop :=
  line p < line q \/ (line p = line q /\ ch p <= ch q).

(** The first line of a text: what precedes its first line feed. *)
Definition first_line (s : jsstring) : jsstring := hd [] (split LF s).

(** The state after a run, and whether it returned. *)
Definition returns {A} (r : outcome A * World) : Prop :=
  match r.1 with Ok _ => True | Throw _ => False end.

Definition final {A} (r : outcome A * World) : World := r.2.

(** The last piece of [chunk.split("\n")], as the loop reads it. *)
Definition tail_line (s : jsstring) : jsstring :=
  split LF s !!! (length (split LF s) - 1).

(** The [replaceRange] calls the loop makes for a sequence of parts, from
    the position [p] on: each part is inserted where the previous one ended. *)
Fixpoint chunk_edits (p : EditorPosition) (parts : list ChatPart) : list Edit :=
  match parts with
  | [] => []
  | part :: rest =>
      {| edit_text := chunk_of part; edit_from := p; edit_to := None |}
      :: chunk_edits (pos_after (chunk_of part) p) rest
  end.

(** The text of a sequence of parts as the editor stores it. *)
Definition stored_text (parts : list ChatPart) : jsstring :=
  concat (map (fun part => normalize_breaks (chunk_of part)) parts).

(** The document before the selection, and after it. *)
Definition before_sel (e : Editor) : jsstring := take (sel_from e) (value e).
Definition after_sel (e : Editor) : jsstring := drop (sel_to e) (value e).

(** What is left of the document after the selection once the rest of the
    line has been cleared: the text from the next line break on. *)
Definition below_sel (e : Editor) : jsstring :=
  drop (length (first_line (after_sel e))) (after_sel e).

(** The end of the placeholder's line, as line 44 computes it. *)
Definition placeholder_end (e : Editor) : EditorPosition :=
  {| line := line (getCursor From e);
     ch := ch (getCursor From e) + length PLACEHOLDER
           + length (first_line (after_sel e)) |}.

(** The editor after the two changes of the placeholder step. *)
Definition cleared (host : Editor -> nat -> nat -> jsstring -> nat * nat)
    (e : Editor) : Editor :=
  after_edit host
    (after_edit host e PLACEHOLDER (getCursor From e) (Some (getCursor To e))
       (before_sel e ++ PLACEHOLDER ++ after_sel e))
    [] (getCursor From e) (Some (placeholder_end e))
    (before_sel e ++ below_sel e).

(** The world after the placeholder step. *)
Definition after_placeholder (e : Editor) (w : World) : World :=
  {| activeView := Some {| editor := Some (cleared (selection_after w) e) |};
     heap := heap w ++ [placeholder_end e];
     notices := notices w; console := console w; chat_calls := chat_calls w;
     edits := edits w ++
       [ {| edit_text := PLACEHOLDER; edit_from := getCursor From e;
            edit_to := Some (getCursor To e) |};
         {| edit_text := []; edit_from := getCursor From e;
            edit_to := Some (placeholder_end e) |} ];
     settings := settings w; data := data w;
     selection_after := selection_after w |}.

(** The world at the [try]: the two ends of the selection have been read,
    the placeholder step is done and [outputPos] is a new object. *)
Definition prepared (e : Editor) (w : World) : World :=
  set_heap (heap w ++ [getCursor From e; getCursor To e; placeholder_end e;
                       getCursor From e])
    (after_placeholder e w).

(** The request the handler builds from the settings and the selection. *)
Definition request_of (s : obj) (prompt : jsstring) : ChatRequest :=
  {| model := get_prop s "model";
     messages :=
       [ {| role := lit "user";
            content := js_add (get_prop s "systemPrompt") [LF; LF] ++ prompt |} ];
     stream := true |}.

(** What a stream delivers: the parts it yields, and the error that ends
    it, if one does. *)
Fixpoint delivered (s : ChatStream) : list ChatPart * option JsError :=
  match s with
  | SDone => ([], None)
  | SPart part rest => let (parts, err) := delivered rest in (part :: parts, err)
  | SThrow err => ([], Some err)
  end.

Definition received (r : ChatResult) : list ChatPart * option JsError :=
  match r with
  | Rejected err => ([], Some err)
  | Resolved s => delivered s
  end.

(** The reference the handler holds in [outputPos]: the fourth object it
    creates, after [from], [to] and [end]. *)
Definition outputPos_of (w : World) : loc := length (heap w) + 3.

(** The editor after a chunk has been inserted at the position [p], and
    the world after one pass of the loop body with the cursor at [p]. *)
Definition inserted (host : Editor -> nat -> nat -> jsstring -> nat * nat)
    (e : Editor) (p : EditorPosition) (chunk : jsstring) : Editor :=
  after_edit host e chunk p None
    (take (posToOffset (value e) p) (value e)
     ++ normalize_breaks chunk
     ++ drop (posToOffset (value e) p) (value e)).

Definition after_chunk (out : loc) (part : ChatPart) (e : Editor)
    (p : EditorPosition) (w : World) : World :=
  set_heap (<[out := pos_after (chunk_of part) p]> (heap w))
    (add_edit {| edit_text := chunk_of part; edit_from := p; edit_to := None |}
       (set_editor (inserted (selection_after w) e p (chunk_of part)) w)).

(** The world after the loop body has run on each of the parts in turn. *)
Fixpoint after_parts (out : loc) (parts : list ChatPart) (w : World) : World :=
  match parts with
  | [] => w
  | part :: rest => after_parts out rest (final (apply_chunk out part w))
  end.

(** The world once the request is out and the given parts have arrived. *)
Definition arrived (e : Editor) (parts : list ChatPart) (w : World) : World :=
  after_parts (outputPos_of w) parts
    (add_chat_call (request_of (settings w) (getSelection e)) (prepared e w)).

(** A host that leaves the caret after the text a change puts in. *)
Definition caret_after (e : Editor) (a b : nat) (inserted : jsstring) : nat * nat :=
  (a + length inserted, a + length inserted).

(** ** A worked stream

    An empty buffer, the cursor object at (0,0), and three chunks. *)
Definition empty_buffer : World :=
  {| activeView :=
       Some {| editor := Some {| value := []; sel_anchor := 0; sel_head := 0 |} |};
     heap := [origin]; notices := []; console := []; chat_calls := [];
     edits := []; settings := DEFAULT_SETTINGS; data := None;
     selection_after := caret_after |}.

Definition hello_chunks : list jsstring :=
  [lit "Hello, "; lit "world"; lit "!" ++ [LF] ++ lit "Next line."].

Definition hello_text : jsstring := lit "Hello, world!" ++ [LF] ++ lit "Next line.".

Definition hello_run : outcome unit * World :=
  for_await (parts_then (part_of <$> hello_chunks) SDone) (apply_chunk 0) empty_buffer.

(** Two chunks, the first with a carriage return in it, into the empty
    buffer. *)
Definition cr_chunks : list jsstring := [lit "a" ++ [CR] ++ lit "b"; lit "c"].

Definition cr_run : outcome unit * World :=
  for_await (parts_then (part_of <$> cr_chunks) SDone) (apply_chunk 0) empty_buffer.

(** ** A worked session

    A three-line note with the selection running from the middle of its
    first line into its second, the default settings, and a client whose
    stream yields two chunks and then ends with a given error. *)
Definition note : Editor :=
  {| value := lit "abc def" ++ [LF] ++ lit "ghi jkl" ++ [LF] ++ lit "xyz";
     sel_anchor := 13; sel_head := 4 |}.

Definition session : World :=
  {| activeView := Some {| editor := Some note |};
     heap := []; notices := []; console := []; chat_calls := [];
     edits := []; settings := DEFAULT_SETTINGS; data := None;
     selection_after := caret_after |}.

Definition two_parts : list ChatPart := [part_of (lit "Hi"); part_of (LF :: lit "yo")].

Definition failing_with (err : JsError) (request : ChatRequest) : ChatResult :=
  Resolved (parts_then two_parts (SThrow err)).

Definition abort_error : JsError :=
  {| name := lit "AbortError"; description := lit "The user aborted a request." |}.

Definition network_error : JsError :=
  {| name := lit "TypeError"; description := lit "Failed to fetch" |}.

(** A world with no active view. *)
Definition no_view : World :=
  {| activeView := None;
     heap := []; notices := []; console := []; chat_calls := [];
     edits := []; settings := DEFAULT_SETTINGS; data := None;
     selection_after := caret_after |}.

(** The notice of a failed precondition. *)
Definition precondition_notice (w : World) : jsstring :=
  match the_editor w with
  | None => NO_EDITOR
  | Some _ => NO_SELECTION
  end.

(** The worked session once the two ends of the selection have been read
    (lines 36-37): [from] is object 0 and [to] is object 1. *)
Definition session_with_cursors : World :=
  set_heap [getCursor From note; getCursor To note] session.

(** A client whose stream yields the two chunks and ends. *)
Definition answering (request : ChatRequest) : ChatResult :=
  Resolved (parts_then two_parts SDone).

(** ** The settings tab, [OllamaSettingTab] *)

Inductive TextKind := Text | TextArea.

(** One [Setting] of the tab as [display] builds it: its name and
    description, the kind of its text component, the placeholder, the value
    it shows, and the settings field its [onChange] callback writes. *)
Record SettingRow := {
  row_name : jsstring;
  row_desc : jsstring;
  row_kind : TextKind;
  row_placeholder : jsstring;
  row_value : jsval;
  row_field : string
}.

(** [containerEl.empty()] *)
Definition empty (containerEl : list SettingRow) : list SettingRow := [].

(** Lines 119-144.  [containerEl.empty()] drops what the container held,
    then each [new Setting(containerEl)] adds its row; the result is the
    container's content. *)
Definition display (containerEl : list SettingRow) : M (list SettingRow) :=
  let containerEl := empty containerEl in
  s ← get_settings;
  let containerEl := containerEl ++
    [ {| row_name := lit "AI Model";
         row_desc := lit "Model you want to use for prompting";
         row_kind := Text;
         row_placeholder := lit "Enter model name";
         row_value := get_prop s "model";
         row_field := "model" |} ] in
  s ← get_settings;
  let containerEl := containerEl ++
    [ {| row_name := lit "System Prompt";
         row_desc := lit "Base instructions/personality for the AI";
         row_kind := TextArea;
         row_placeholder := lit "This is the personality of the AI";
         row_value := get_prop s "systemPrompt";
         row_field := "systemPrompt" |} ] in
  mret containerEl.

(** ** Vocabulary of the further properties *)

(** Both fields of [ModelSettings] are there. *)
Definition has_settings (s : obj) : Prop :=
  is_Some (s !! "model"%string) ∧ is_Some (s !! "systemPrompt"%string).

(** A property as [loadSettings] finds it: the stored one, or the default. *)
Definition stored_or (dflt : jsstring) (k : string) (stored : option obj) : jsstring :=
  match stored with
  | Some d => match d !! k with Some v => v | None => dflt end
  | None => dflt
  end.

(** The notice and the log entry the catch block makes of an error. *)
Definition notice_of (err : JsError) : jsstring :=
  if bool_decide (name err = lit "AbortError") then lit "Aborted all requests"
  else 0x274C%N :: lit " Error communicating with Ollama.".

Definition log_of (err : JsError) : list LogEntry :=
  if bool_decide (name err = lit "AbortError") then [] else [LogError err].

(** A client whose promise is rejected at once. *)
Definition rejecting (err : JsError) (request : ChatRequest) : ChatResult :=
  Rejected err.

(** The answer of [answering], cut into chunks at other places. *)
Definition other_parts : list ChatPart :=
  [part_of (lit "H"); part_of []; part_of (lit "i" ++ [LF] ++ lit "y"); part_of (lit "o")].

Definition answering_otherwise (request : ChatRequest) : ChatResult :=
  Resolved (parts_then other_parts SDone).

(** The worked session with a model name stored and no system prompt. *)
Definition stored_model : obj := {[ "model"%string := lit "mistral" ]}.

Definition session_stored : World := set_data (Some stored_model) session.

(** * Facts *)

(** ** [split] *)

Section split_facts.
Implicit Types (s r x y : jsstring) (a : N).

Lemma split_nonempty sep s : split sep s ≠ [].
Proof. destruct s as [|c r]; simpl; [done|]. by repeat case_match. Qed.

Lemma split_LF r : split LF (LF :: r) = [] :: split LF r.
Proof. done. Qed.

Lemma split_other a r :
  a ≠ LF → split LF (a :: r) = (a :: hd [] (split LF r)) :: tl (split LF r).
Proof.
  intros Ha. simpl. destruct (N.eqb_spec a LF) as [|_]; [done|].
  destruct (split LF r) eqn:E; [by apply split_nonempty in E|done].
Qed.

Lemma newlines_LF r : newlines (LF :: r) = S (newlines r).
Proof. unfold newlines. by rewrite filter_cons_True. Qed.

Lemma newlines_other a r : a ≠ LF → newlines (a :: r) = newlines r.
Proof. intros Ha. unfold newlines. by rewrite filter_cons_False. Qed.

Lemma newlines_app x y : newlines (x ++ y) = newlines x + newlines y.
Proof. unfold newlines. by rewrite filter_app, length_app. Qed.

Lemma newlines_0 s : newlines s = 0 ↔ LF ∉ s.
Proof.
  induction s as [|a r IH].
  - split; [intros _; apply not_elem_of_nil|done].
  - destruct (decide (a = LF)) as [->|Ha].
    + rewrite newlines_LF. split; [done|]. intros H. destruct H. left.
    + rewrite newlines_other, IH, not_elem_of_cons by done. intuition congruence.
Qed.

(** [lines.length] is one more than the number of line feeds. *)
Lemma length_split s : length (split LF s) = S (newlines s).
Proof.
  induction s as [|a r IH]; [done|].
  destruct (decide (a = LF)) as [->|Ha].
  - rewrite split_LF, newlines_LF. simpl. by rewrite IH.
  - rewrite split_other, newlines_other by done. simpl.
    destruct (split LF r); [done|]. by simpl in *.
Qed.

Lemma split_no_LF s : newlines s = 0 → split LF s = [s].
Proof.
  induction s as [|a r IH]; [done|].
  destruct (decide (a = LF)) as [->|Ha].
  - by rewrite newlines_LF.
  - rewrite newlines_other by done. intros E.
    by rewrite split_other, IH.
Qed.

Lemma tail_line_nil : tail_line [] = [].
Proof. done. Qed.

Lemma tail_line_LF r : tail_line (LF :: r) = tail_line r.
Proof.
  unfold tail_line. rewrite split_LF. simpl length.
  rewrite length_split. simpl. by rewrite Nat.sub_0_r.
Qed.

Lemma tail_line_no_LF s : newlines s = 0 → tail_line s = s.
Proof. intros E. unfold tail_line. by rewrite split_no_LF. Qed.

Lemma tail_line_other a r :
  a ≠ LF → newlines r ≠ 0 → tail_line (a :: r) = tail_line r.
Proof.
  intros Ha Hr. unfold tail_line. rewrite split_other by done.
  pose proof (length_split r) as Hl.
  destruct (split LF r) as [|l ls]; [done|]. simpl in *.
  destruct ls as [|l' ls]; simpl in *; [lia|].
  done.
Qed.

(** The text after the last line feed. *)
Lemma tail_line_app_LF x y : tail_line (x ++ LF :: y) = tail_line y.
Proof.
  induction x as [|a r IH]; simpl.
  - apply tail_line_LF.
  - destruct (decide (a = LF)) as [->|Ha].
    + by rewrite tail_line_LF.
    + rewrite tail_line_other; [done..|].
      rewrite newlines_app, newlines_LF. lia.
Qed.

Lemma first_line_nil : first_line [] = [].
Proof. done. Qed.

Lemma first_line_LF r : first_line (LF :: r) = [].
Proof. done. Qed.

Lemma first_line_other a r : a ≠ LF → first_line (a :: r) = a :: first_line r.
Proof. intros Ha. unfold first_line. by rewrite split_other. Qed.

Lemma first_line_app x y : newlines x = 0 → first_line (x ++ y) = x ++ first_line y.
Proof.
  induction x as [|a r IH]; [done|]. simpl.
  destruct (decide (a = LF)) as [->|Ha].
  - by rewrite newlines_LF.
  - rewrite newlines_other, first_line_other by done. intros E. by rewrite IH.
Qed.
End split_facts.

(** ** Positions and offsets *)

Section position_facts.
Implicit Types (s r x y : jsstring) (a : N) (p : EditorPosition).

(** Reading a text moves a position as the loop's two cases say. *)
Lemma pos_after_split s p :
  pos_after s p =
    if newlines s =? 0 then {| line := line p; ch := ch p + length s |}
    else {| line := line p + newlines s; ch := length (tail_line s) |}.
Proof.
  revert p. induction s as [|a r IH]; intros [l c]; simpl.
  - by rewrite Nat.add_0_r.
  - destruct (N.eqb_spec a LF) as [->|Ha]; rewrite IH; simpl.
    + rewrite newlines_LF, tail_line_LF. simpl.
      destruct (Nat.eqb_spec (newlines r) 0) as [E|E].
      * rewrite E, tail_line_no_LF by done. f_equal; lia.
      * f_equal; lia.
    + rewrite newlines_other by done.
      destruct (Nat.eqb_spec (newlines r) 0) as [E|E].
      * f_equal; lia.
      * by rewrite tail_line_other.
Qed.

Lemma pos_after_app x y p : pos_after (x ++ y) p = pos_after y (pos_after x p).
Proof.
  revert p. induction x as [|a r IH]; intros p; simpl; [done|].
  by destruct (N.eqb a LF).
Qed.

Lemma pos_after_origin s :
  pos_after s origin = {| line := newlines s; ch := length (tail_line s) |}.
Proof.
  rewrite pos_after_split. simpl.
  destruct (Nat.eqb_spec (newlines s) 0) as [E|E]; [|done].
  by rewrite E, tail_line_no_LF.
Qed.

(** A column on the first line, clipped to the end of that line. *)
Lemma offset_at_first_line y k :
  offset_at y 0 k = k `min` length (first_line y).
Proof.
  revert k. induction y as [|a r IH]; intros k; simpl offset_at.
  - by rewrite first_line_nil, Nat.min_0_r.
  - destruct (N.eqb_spec a LF) as [->|Ha].
    + by rewrite first_line_LF, Nat.min_0_r.
    + rewrite first_line_other by done. destruct k; [done|].
      rewrite IH. simpl. lia.
Qed.

(** The offset of a column on the line where a prefix [x] of the document
    ends, at or after the end of [x]. *)
Lemma offset_at_after x y k :
  offset_at (x ++ y) (newlines x) (length (tail_line x) + k)
  = length x + k `min` length (first_line y).
Proof.
  induction x as [|a r IH]; simpl app.
  - apply offset_at_first_line.
  - simpl offset_at. destruct (N.eqb_spec a LF) as [->|Ha].
    + rewrite newlines_LF, tail_line_LF, IH. simpl. lia.
    + rewrite newlines_other by done.
      destruct (decide (newlines r = 0)) as [E|E].
      * rewrite E in *. rewrite tail_line_no_LF by by rewrite newlines_other.
        rewrite tail_line_no_LF in IH by done.
        simpl. rewrite IH. lia.
      * rewrite tail_line_other by done.
        destruct (newlines r) eqn:E'; [done|]. rewrite IH. simpl. lia.
Qed.

(** The position where a prefix of the document ends is the offset of
    its length. *)
Lemma posToOffset_pos_after x y :
  posToOffset (x ++ y) (pos_after x origin) = length x.
Proof.
  rewrite pos_after_origin. unfold posToOffset. simpl.
  rewrite <-(Nat.add_0_r (length (tail_line x))), offset_at_after. simpl. lia.
Qed.

Lemma offset_at_end x y :
  offset_at (x ++ y) (newlines x) (length (tail_line x)) = length x.
Proof.
  pose proof (posToOffset_pos_after x y) as H.
  by rewrite pos_after_origin in H.
Qed.

(** The line on which a prefix of the document ends. *)
Lemma getLine_after x y :
  getLine (x ++ y) (newlines x) = Some (tail_line x ++ first_line y).
Proof.
  unfold getLine. induction x as [|a r IH]; simpl app.
  - unfold first_line. pose proof (split_nonempty LF y).
    by destruct (split LF y).
  - destruct (decide (a = LF)) as [->|Ha].
    + by rewrite split_LF, newlines_LF, tail_line_LF.
    + rewrite split_other, newlines_other by done.
      destruct (decide (newlines r = 0)) as [E|E].
      * rewrite E in *. rewrite tail_line_no_LF by by rewrite newlines_other.
        rewrite tail_line_no_LF in IH by done.
        destruct (split LF (r ++ y)); simplify_eq/=. done.
      * rewrite tail_line_other by done.
        destruct (newlines r) eqn:E'; [done|].
        destruct (split LF (r ++ y)); simplify_eq/=. done.
Qed.

(** A position at or after the end of a prefix [x] of the document is at an
    offset at or after the length of [x], clipped or not. *)
Lemma offset_at_ge x y ln col :
  pos_le {| line := newlines x; ch := length (tail_line x) |}
         {| line := ln; ch := col |} →
  length x ≤ offset_at (x ++ y) ln col.
Proof.
  unfold pos_le. simpl. revert ln col.
  induction x as [|a r IH]; intros ln col H; [simpl; lia|].
  simpl app. simpl offset_at. destruct (N.eqb_spec a LF) as [->|Ha].
  - rewrite newlines_LF, tail_line_LF in H.
    destruct ln as [|n]; [lia|]. specialize (IH n col). simpl. lia.
  - rewrite newlines_other in H by done.
    destruct (decide (newlines r = 0)) as [E|E].
    + rewrite tail_line_no_LF in H by by rewrite newlines_other.
      rewrite E in H. simpl in H.
      pose proof (IH ln col) as IH1. pose proof (IH 0 (pred col)) as IH2.
      rewrite E, tail_line_no_LF in IH1, IH2 by done.
      destruct ln as [|n]; [destruct col as [|m]; [lia|]|]; simpl in *; lia.
    + rewrite tail_line_other in H by done.
      destruct ln as [|n]; [lia|]. specialize (IH (S n) col). simpl. lia.
Qed.

Lemma posToOffset_ge x y p :
  pos_le (pos_after x origin) p → length x ≤ posToOffset (x ++ y) p.
Proof.
  rewrite pos_after_origin. destruct p as [ln col]. apply offset_at_ge.
Qed.

Lemma pos_le_refl p : pos_le p p.
Proof. right. done. Qed.

Lemma pos_le_trans p q p' : pos_le p q → pos_le q p' → pos_le p p'.
Proof. unfold pos_le. lia. Qed.

Lemma pos_le_pos_after s p : pos_le p (pos_after s p).
Proof.
  rewrite pos_after_split. unfold pos_le.
  destruct (Nat.eqb_spec (newlines s) 0); simpl; lia.
Qed.
End position_facts.

(** ** Running the handler's steps *)

Section run_facts.
Implicit Types (w : World) (e : Editor) (x y : jsstring).

Lemma bind_run {A B} (m : M A) (f : A → M B) w :
  (m ≫= f) w =
    match m w with
    | (Ok a, w') => f a w'
    | (Throw err, w') => (Throw err, w')
    end.
Proof. done. Qed.

Lemma the_editor_view w e :
  the_editor w = Some e → activeView w = Some {| editor := Some e |}.
Proof.
  unfold the_editor. destruct (activeView w) as [[ed]|]; simpl; [|done].
  by intros ->.
Qed.

Lemma value_after_edit host e text f t doc :
  value (after_edit host e text f t doc) = doc.
Proof. done. Qed.

(** A change that replaces nothing by nothing leaves the selection alone. *)
Lemma after_edit_empty host e p :
  after_edit host e [] p None (value e) = e.
Proof.
  unfold after_edit. rewrite bool_decide_true by done. by destruct e.
Qed.

(** Text without a carriage return is stored as it is. *)
Lemma normalize_breaks_no_CR (s : jsstring) : CR ∉ s → normalize_breaks s = s.
Proof.
  induction s as [|a r IH]; [done|]. rewrite not_elem_of_cons. intros [Ha Hr].
  simpl. destruct (N.eqb_spec a CR) as [->|_]; [done|]. by rewrite IH.
Qed.

Lemma normalize_breaks_PLACEHOLDER : normalize_breaks PLACEHOLDER = PLACEHOLDER.
Proof. done. Qed.

(** A [replaceRange] with in-order offsets goes through: the document is
    spliced, the selection moved and the call recorded. *)
Lemma editor_replaceRange_run text from to w e doc :
  the_editor w = Some e →
  replaceRange text (heap w !!! from) ((λ l, heap w !!! l) <$> to) (value e) = Some doc →
  editor_replaceRange text from to w =
    (Ok (),
     add_edit {| edit_text := text; edit_from := heap w !!! from;
                 edit_to := (λ l, heap w !!! l) <$> to |}
       (set_editor
          (after_edit (selection_after w) e text (heap w !!! from)
             ((λ l, heap w !!! l) <$> to) doc) w)).
Proof.
  intros He Hr. unfold editor_replaceRange, with_editor. rewrite He.
  rewrite bind_run. simpl. rewrite bind_run.
  destruct to as [l|]; simpl in *; by rewrite Hr.
Qed.

(** Inserting at the end of a prefix [x] of the document. *)
Lemma replaceRange_insert text x y :
  replaceRange text (pos_after x origin) None (x ++ y)
  = Some (x ++ normalize_breaks text ++ y).
Proof.
  unfold replaceRange. rewrite posToOffset_pos_after, Nat.ltb_irrefl.
  by rewrite take_app_length, drop_app_length.
Qed.

(** One pass of the loop body, wherever the cursor object points: the
    chunk goes in at the cursor's offset and the cursor object is moved
    over the chunk. *)
Lemma apply_chunk_at out part w e p :
  the_editor w = Some e →
  heap w !! out = Some p →
  apply_chunk out part w = (Ok (), after_chunk out part e p w).
Proof.
  intros He Hout. unfold apply_chunk, after_chunk, inserted, chunk_of.
  pose proof (list_lookup_total_correct _ _ _ Hout) as Hout'.
  pose proof (lookup_lt_Some _ _ _ Hout) as Hlt.
  rewrite bind_run.
  rewrite (editor_replaceRange_run _ _ None w e
             (take (posToOffset (value e) p) (value e)
              ++ normalize_breaks (content (message part))
              ++ drop (posToOffset (value e) p) (value e)) He);
    [|simpl; rewrite Hout'; unfold replaceRange; by rewrite Nat.ltb_irrefl].
  rewrite (pos_after_split (content _)), length_split.
  destruct (Nat.eqb_spec (newlines (content (message part))) 0) as [E|E].
  - replace (S (newlines (content (message part))) =? 1) with true
      by (symmetry; apply Nat.eqb_eq; lia).
    unfold update. simpl. rewrite Hout'.
    rewrite split_no_LF by done. done.
  - replace (S (newlines (content (message part))) =? 1) with false
      by (symmetry; apply Nat.eqb_neq; lia).
    rewrite bind_run. unfold update. simpl. rewrite Hout'.
    rewrite list_lookup_total_insert_eq by done.
    rewrite list_insert_insert_eq. simpl.
    rewrite Nat.sub_0_r. unfold tail_line. rewrite length_split. simpl.
    by rewrite Nat.sub_0_r.
Qed.

Lemma after_chunk_editor out part e p w :
  the_editor (after_chunk out part e p w)
  = Some (inserted (selection_after w) e p (chunk_of part)).
Proof. done. Qed.

Lemma after_chunk_cursor out part e p w :
  heap w !! out = Some p →
  heap (after_chunk out part e p w) !! out = Some (pos_after (chunk_of part) p).
Proof.
  intros Hout. simpl. apply list_lookup_insert_eq. by eapply lookup_lt_Some.
Qed.

Lemma after_parts_cons out part parts w e p :
  the_editor w = Some e →
  heap w !! out = Some p →
  after_parts out (part :: parts) w
  = after_parts out parts (after_chunk out part e p w).
Proof. intros He Hout. simpl. by rewrite (apply_chunk_at out part w e p). Qed.

(** The loop over a stream that starts with [parts]: the parts are
    applied one after the other, and the loop goes on with the rest. *)
Lemma for_await_parts parts rest out w e p :
  the_editor w = Some e →
  heap w !! out = Some p →
  for_await (parts_then parts rest) (apply_chunk out) w =
  for_await rest (apply_chunk out) (after_parts out parts w).
Proof.
  revert w e p. induction parts as [|part parts IH]; intros w e p He Hout; [done|].
  rewrite (after_parts_cons out part parts w e p He Hout).
  simpl. rewrite bind_run, (apply_chunk_at out part w e p He Hout).
  eapply IH; [apply after_chunk_editor|by apply after_chunk_cursor].
Qed.

(** What the loop leaves alone, where it leaves the cursor object and which
    calls it makes, whatever the chunks hold. *)
Lemma after_parts_frame parts out w e p :
  the_editor w = Some e →
  heap w !! out = Some p →
  is_Some (the_editor (after_parts out parts w))
  ∧ heap (after_parts out parts w) = <[out := pos_after (text_of parts) p]> (heap w)
  ∧ notices (after_parts out parts w) = notices w
  ∧ console (after_parts out parts w) = console w
  ∧ chat_calls (after_parts out parts w) = chat_calls w
  ∧ settings (after_parts out parts w) = settings w
  ∧ data (after_parts out parts w) = data w
  ∧ edits (after_parts out parts w) = edits w ++ chunk_edits p parts.
Proof.
  revert w e p. induction parts as [|part parts IH]; intros w e p He Hout.
  - simpl. rewrite He, list_insert_id, app_nil_r by done. by repeat split.
  - rewrite (after_parts_cons out part parts w e p He Hout).
    destruct (IH (after_chunk out part e p w) _ _
                (after_chunk_editor out part e p w)
                (after_chunk_cursor out part e p w Hout))
      as (H1 & H2 & H3 & H4 & H5 & H6 & H7 & H8).
    rewrite H2, H3, H4, H5, H6, H7, H8. split; [done|].
    unfold text_of. simpl. fold (text_of parts).
    rewrite list_insert_insert_eq, pos_after_app, <-(assoc_L (++)).
    by repeat split.
Qed.

(** The buffer after the loop, when no chunk holds a carriage return and
    the cursor object starts at the end of a prefix [x]. *)
Lemma after_parts_exact parts out w e x y :
  Forall (λ part, CR ∉ chunk_of part) parts →
  the_editor w = Some e →
  value e = x ++ y →
  heap w !! out = Some (pos_after x origin) →
  value <$> the_editor (after_parts out parts w) = Some (x ++ text_of parts ++ y).
Proof.
  revert w e x. induction parts as [|part parts IH]; intros w e x Hcr He Hv Hout.
  - simpl. by rewrite He, <-Hv.
  - apply Forall_cons in Hcr as [Hc Hcr].
    rewrite (after_parts_cons out part parts w e _ He Hout).
    rewrite (IH _ _ (x ++ chunk_of part) Hcr (after_chunk_editor _ _ _ _ _)).
    + unfold text_of. simpl. by rewrite <-!(assoc_L (++)).
    + unfold inserted. rewrite value_after_edit, Hv, posToOffset_pos_after.
      rewrite take_app_length, drop_app_length, normalize_breaks_no_CR by done.
      by rewrite <-(assoc_L (++)).
    + rewrite pos_after_app. by apply after_chunk_cursor.
Qed.

(** The text before the cursor's first position stays at the head of the
    buffer, whatever the chunks hold. *)
Lemma after_parts_prefix parts out w e x y p :
  the_editor w = Some e →
  value e = x ++ y →
  heap w !! out = Some p →
  pos_le (pos_after x origin) p →
  ∃ y', value <$> the_editor (after_parts out parts w) = Some (x ++ y').
Proof.
  revert w e y p. induction parts as [|part parts IH]; intros w e y p He Hv Hout Hle.
  - exists y. simpl. by rewrite He, <-Hv.
  - rewrite (after_parts_cons out part parts w e _ He Hout).
    eapply (IH _ _ _ _ (after_chunk_editor _ _ _ _ _)).
    + unfold inserted. rewrite value_after_edit, Hv.
      rewrite take_app_ge by by apply posToOffset_ge.
      by rewrite <-(assoc_L (++)).
    + by apply after_chunk_cursor.
    + eapply pos_le_trans; [done|apply pos_le_pos_after].
Qed.

(** Nothing is taken out of the buffer by the loop: the buffer grows by
    each chunk as stored, and what it held and each stored chunk are still
    in it, in order. *)
Lemma after_parts_kept parts out w e p :
  the_editor w = Some e →
  heap w !! out = Some p →
  ∃ doc,
    value <$> the_editor (after_parts out parts w) = Some doc
    ∧ length doc = length (value e) + length (stored_text parts)
    ∧ value e `sublist_of` doc
    ∧ Forall (λ part, normalize_breaks (chunk_of part) `sublist_of` doc) parts.
Proof.
  revert w e p. induction parts as [|part parts IH]; intros w e p He Hout.
  - exists (value e). simpl. rewrite He. unfold stored_text. simpl.
    by rewrite Nat.add_0_r.
  - rewrite (after_parts_cons out part parts w e _ He Hout).
    destruct (IH _ _ _ (after_chunk_editor out part e p w)
                (after_chunk_cursor out part e p w Hout))
      as (doc & Hdoc & Hlen & Hsub & Hall).
    unfold inserted in Hlen, Hsub. rewrite value_after_edit in Hlen, Hsub.
    set (a := posToOffset (value e) p) in *.
    set (n := normalize_breaks (chunk_of part)) in *.
    exists doc. split; [done|]. split; [|split].
    + rewrite Hlen. unfold stored_text. simpl. fold (stored_text parts). fold n.
      assert (length (take a (value e)) + length (drop a (value e))
              = length (value e)) as Hcut
        by by rewrite <-length_app, take_drop.
      rewrite !length_app. lia.
    + etrans; [|exact Hsub].
      rewrite <-(take_drop a (value e)) at 1.
      apply sublist_app; [done|]. by apply sublist_inserts_l.
    + constructor; [|done]. etrans; [|exact Hsub].
      apply sublist_inserts_l. by apply sublist_inserts_r.
Qed.
(** Every stream is a sequence of parts and then its end or its error. *)
Lemma stream_parts (s : ChatStream) :
  ∃ parts, s = parts_then parts SDone ∨ ∃ err, s = parts_then parts (SThrow err).
Proof.
  induction s as [|part rest [parts IH]|err].
  - exists []. by left.
  - exists (part :: parts). destruct IH as [->|[err ->]]; [by left|right; by exists err].
  - exists []. right. by exists err.
Qed.
Lemma take_take_length {A} (l : list A) n : take (length (take n l)) l = take n l.
Proof. rewrite length_take. destruct (decide (n ≤ length l)).
  - by rewrite Nat.min_l.
  - rewrite Nat.min_r by lia. by rewrite firstn_all, take_ge by lia.
Qed.

Lemma drop_take_length {A} (l : list A) n : drop (length (take n l)) l = drop n l.
Proof. rewrite length_take. destruct (decide (n ≤ length l)).
  - by rewrite Nat.min_l.
  - rewrite Nat.min_r by lia. by rewrite drop_all, drop_ge by lia.
Qed.

(** The position of an offset reads back as that offset, clipped. *)
Lemma posToOffset_offsetToPos doc o :
  posToOffset doc (offsetToPos doc o) = length (take o doc).
Proof.
  unfold offsetToPos. rewrite <-(take_drop o doc) at 1.
  apply posToOffset_pos_after.
Qed.

(** Replacing between the positions of two offsets in order. *)
Lemma replaceRange_offsets text doc a b :
  a ≤ b →
  replaceRange text (offsetToPos doc a) (Some (offsetToPos doc b)) doc
  = Some (take a doc ++ normalize_breaks text ++ drop b doc).
Proof.
  intros Hab. unfold replaceRange. rewrite !posToOffset_offsetToPos.
  rewrite take_take_length, drop_take_length.
  replace (length (take b doc) <? length (take a doc)) with false; [done|].
  symmetry. apply Nat.ltb_ge. rewrite !length_take. lia.
Qed.

Lemma sel_from_to e : sel_from e ≤ sel_to e.
Proof. unfold sel_from, sel_to. lia. Qed.

Lemma newlines_PLACEHOLDER : newlines PLACEHOLDER = 0.
Proof. done. Qed.

Lemma getCursor_From e :
  getCursor From e =
    {| line := newlines (before_sel e); ch := length (tail_line (before_sel e)) |}.
Proof. simpl. unfold offsetToPos. by rewrite pos_after_origin. Qed.

Opaque PLACEHOLDER.

(** Lines 39-47 on an editor whose selection ends are held by [from] and
    [to]. *)
Lemma placeholder_step_run from to w e :
  the_editor w = Some e →
  heap w !! from = Some (getCursor From e) →
  heap w !! to = Some (getCursor To e) →
  placeholder_step from to w = (Ok (), after_placeholder e w).
Proof.
  intros He Hfrom Hto. unfold placeholder_step.
  pose proof (list_lookup_total_correct _ _ _ Hfrom) as Hf.
  pose proof (list_lookup_total_correct _ _ _ Hto) as Ht.
  rewrite bind_run.
  rewrite (editor_replaceRange_run _ _ (Some to) w e
             (before_sel e ++ PLACEHOLDER ++ after_sel e) He);
    [|simpl; rewrite Hf, Ht; etrans; [apply replaceRange_offsets, sel_from_to|];
      by rewrite normalize_breaks_PLACEHOLDER].
  rewrite bind_run. unfold deref at 1. cbn [heap add_edit set_editor].
  rewrite Hf, bind_run.
  unfold editor_getLine, with_editor, the_editor.
  cbn [activeView add_edit set_editor editor]. rewrite value_after_edit.
  rewrite getCursor_From. cbn [line].
  rewrite getLine_after, first_line_app by apply newlines_PLACEHOLDER.
  unfold mret, M_ret. rewrite bind_run. unfold alloc at 1.
  cbn [heap add_edit set_editor set_heap].
  assert (length (tail_line (before_sel e) ++ PLACEHOLDER ++ first_line (after_sel e))
          = length (tail_line (before_sel e)) + length PLACEHOLDER
            + length (first_line (after_sel e))) as Hlen
    by (rewrite !length_app; lia).
  rewrite Hlen. fold (placeholder_end e) in *.
  assert ({| line := newlines (before_sel e);
             ch := length (tail_line (before_sel e)) + length PLACEHOLDER
                   + length (first_line (after_sel e)) |} = placeholder_end e) as Hend
    by (unfold placeholder_end; by rewrite getCursor_From).
  rewrite Hend.
  erewrite (editor_replaceRange_run _ _ _ _ _ (before_sel e ++ below_sel e));
    [|reflexivity|].
  - cbn [fmap option_fmap option_map heap set_heap add_edit set_editor
         selection_after edits activeView notices console chat_calls settings data].
    rewrite !lookup_total_app_l by by eapply lookup_lt_Some.
    rewrite Hf, Ht, list_lookup_total_middle by done.
    unfold after_placeholder, cleared, add_edit, set_editor, set_heap.
    cbn [selection_after edits activeView notices console chat_calls settings data heap].
    by rewrite <-getCursor_From, <-!(assoc_L (++)).
  - cbn [fmap option_fmap option_map heap set_heap add_edit set_editor].
    rewrite !lookup_total_app_l by by eapply lookup_lt_Some.
    rewrite Hf, list_lookup_total_middle by done.
    rewrite value_after_edit.
    unfold placeholder_end. rewrite getCursor_From.
    unfold replaceRange, posToOffset. cbn [line ch].
    rewrite offset_at_end, <-Nat.add_assoc, offset_at_after.
    rewrite first_line_app by apply newlines_PLACEHOLDER.
    rewrite length_app, Nat.min_id.
    replace (_ <? _) with false by (symmetry; apply Nat.ltb_ge; lia).
    rewrite take_app_length, drop_app_add. simpl app at 1.
    rewrite drop_app_add. reflexivity.
Qed.

Transparent PLACEHOLDER.
Lemma delivered_parts_then s :
  s = parts_then (delivered s).1
        (match (delivered s).2 with None => SDone | Some err => SThrow err end).
Proof.
  induction s as [|part rest IH|err]; simpl; [done| |done].
  destruct (delivered rest) as [parts err]. simpl in *. by rewrite <-IH.
Qed.

Lemma catch_block_run err w :
  catch_block err w =
    if bool_decide (name err = lit "AbortError") then (Ok (), add_notice ABORTED w)
    else (Ok (), add_notice COMM_ERROR (add_log (LogError err) w)).
Proof. unfold catch_block. by case_bool_decide. Qed.

(** The handler up to the [try], for an editor with a selection. *)
Lemma send_to_ollama_prepared client w e :
  the_editor w = Some e →
  getSelection e ≠ [] →
  send_to_ollama client w =
    try_catch
      (try_block client (settings w)
         {| role := lit "user";
            content := js_add (get_prop (settings w) "systemPrompt") [LF; LF]
                       ++ getSelection e |}
         (outputPos_of w))
      catch_block (prepared e w).
Proof.
  intros He Hsel. unfold send_to_ollama.
  rewrite bind_run. unfold getActiveViewOfType at 1.
  rewrite (the_editor_view w e He), bind_run.
  unfold editor_getSelection, with_editor at 1. rewrite He.
  unfold mret at 1, M_ret at 1.
  destruct (getSelection e) as [|c prompt] eqn:Hp; [by destruct Hsel|].
  rewrite bind_run. unfold editor_getCursor, with_editor at 1. rewrite He.
  unfold alloc at 1. rewrite bind_run.
  unfold with_editor at 1, the_editor at 1. cbn [activeView set_heap].
  rewrite (the_editor_view w e He). cbn [editor].
  unfold alloc at 1. cbn [heap set_heap]. rewrite bind_run.
  rewrite (placeholder_step_run _ _ _ e).
  - rewrite bind_run. unfold deref at 1. cbn beta iota.
    rewrite bind_run. unfold alloc at 1. cbn beta iota.
    rewrite bind_run. unfold get_settings at 1. cbn beta iota.
    unfold after_placeholder, prepared, outputPos_of, set_heap.
    cbn [activeView heap notices console chat_calls edits settings data].
    rewrite <-!(assoc_L (++)). simpl app.
    rewrite list_lookup_total_middle by done.
    rewrite length_app. simpl length.
    unfold after_placeholder.
    cbn [activeView heap notices console chat_calls edits settings data].
    done.
  - unfold the_editor. simpl. by rewrite (the_editor_view w e He).
  - simpl. rewrite <-(assoc_L (++)). by apply list_lookup_middle.
  - simpl. rewrite <-(assoc_L (++)).
    by rewrite lookup_app_r, length_app, Nat.add_comm, Nat.add_sub by (rewrite length_app; lia).
Qed.
Lemma prepared_cursor e w r :
  heap (add_chat_call r (prepared e w)) !! outputPos_of w
  = Some (getCursor From e).
Proof.
  unfold outputPos_of. simpl.
  by rewrite lookup_app_r, Nat.add_comm, Nat.add_sub by lia.
Qed.

Lemma prepared_editor e w r :
  the_editor (add_chat_call r (prepared e w)) = Some (cleared (selection_after w) e).
Proof. done. Qed.

(** The whole handler, for an editor with a selection: the request goes
    out, the parts the client delivers are streamed in, and an error that
    ends the stream reaches the catch block. *)
Lemma send_to_ollama_run client w e :
  the_editor w = Some e →
  getSelection e ≠ [] →
  send_to_ollama client w =
    match (received (client (request_of (settings w) (getSelection e)))).2 with
    | None =>
        (Ok (),
         arrived e (received (client (request_of (settings w) (getSelection e)))).1 w)
    | Some err =>
        catch_block err
          (arrived e (received (client (request_of (settings w) (getSelection e)))).1 w)
    end.
Proof.
  intros He Hsel. rewrite (send_to_ollama_prepared client w e) by done.
  unfold try_catch, try_block. rewrite bind_run. unfold ollama_chat.
  fold (request_of (settings w) (getSelection e)).
  set (req := request_of (settings w) (getSelection e)).
  unfold arrived. fold req.
  destruct (client req) as [err|s]; simpl received; [done|].
  rewrite (delivered_parts_then s) at 1.
  rewrite (for_await_parts _ _ _ _ _ _ (prepared_editor e w req)
             (prepared_cursor e w req)).
  by destruct (delivered s).2.
Qed.

Lemma delivered_parts parts tail :
  delivered (parts_then parts tail) = (parts ++ (delivered tail).1, (delivered tail).2).
Proof.
  induction parts as [|part parts IH]; simpl; [by destruct (delivered tail)|].
  by rewrite IH.
Qed.

(** The catch block shows a notice, logs at most, and touches nothing else. *)
Lemma catch_block_frame err w :
  returns (catch_block err w)
  ∧ activeView (final (catch_block err w)) = activeView w
  ∧ heap (final (catch_block err w)) = heap w
  ∧ chat_calls (final (catch_block err w)) = chat_calls w
  ∧ edits (final (catch_block err w)) = edits w.
Proof. rewrite catch_block_run. by case_bool_decide. Qed.

Lemma chunk_edits_texts p parts :
  edit_text <$> chunk_edits p parts = chunk_of <$> parts.
Proof.
  revert p. induction parts as [|part parts IH]; intros p; simpl; [done|].
  by rewrite IH.
Qed.

Lemma chunk_edits_after p parts :
  Forall (λ ed, pos_le p (edit_from ed) ∧ edit_to ed = None) (chunk_edits p parts).
Proof.
  revert p. induction parts as [|part parts IH]; intros p; simpl; [done|].
  constructor; [split; [apply pos_le_refl|done]|].
  eapply Forall_impl; [apply IH|]. intros ed [Hle ?]. split; [|done].
  eapply pos_le_trans; [apply pos_le_pos_after|done].
Qed.

Lemma first_line_drop z : first_line (drop (length (first_line z)) z) = [].
Proof.
  induction z as [|a r IH]; [done|].
  destruct (decide (a = LF)) as [->|Ha]; [done|].
  by rewrite first_line_other.
Qed.

(** [Object.assign({}, defaults, stored)], property by property. *)
Lemma Object_assign_lookup (defaults : obj) (stored : option obj) k :
  Object_assign ∅ [Some defaults; stored] !! k =
    match stored with
    | Some d => match d !! k with Some v => Some v | None => defaults !! k end
    | None => defaults !! k
    end.
Proof.
  unfold Object_assign. simpl. rewrite (right_id_L ∅ (∪)).
  destruct stored as [d|]; [|done].
  rewrite lookup_union. by destruct (d !! k), (defaults !! k).
Qed.

Lemma loadSettings_run w :
  loadSettings w
  = (Ok (), set_settings (Object_assign ∅ [Some DEFAULT_SETTINGS; data w]) w).
Proof. done. Qed.

Lemma saveSettings_run w : saveSettings w = (Ok (), set_data (Some (settings w)) w).
Proof. done. Qed.


(** An edit in the settings tab changes the field and saves at once. *)
Lemma onChange_run field v w :
  onChange field v w
  = (Ok (), set_data (Some (<[field := v]> (settings w)))
              (set_settings (<[field := v]> (settings w)) w)).
Proof. done. Qed.

(** What the handler leaves behind, whichever way the stream ends: the
    world in which the delivered parts have arrived, but for the notices
    and the console. *)
Lemma send_to_ollama_frame client w e :
  the_editor w = Some e →
  getSelection e ≠ [] →
  let parts := (received (client (request_of (settings w) (getSelection e)))).1 in
  returns (send_to_ollama client w)
  ∧ activeView (final (send_to_ollama client w)) = activeView (arrived e parts w)
  ∧ heap (final (send_to_ollama client w)) = heap (arrived e parts w)
  ∧ chat_calls (final (send_to_ollama client w)) = chat_calls (arrived e parts w)
  ∧ edits (final (send_to_ollama client w)) = edits (arrived e parts w).
Proof.
  intros He Hsel parts. rewrite (send_to_ollama_run client w e He Hsel).
  fold parts.
  destruct (received (client (request_of (settings w) (getSelection e)))).2
    as [err|]; [apply catch_block_frame|done].
Qed.
Lemma cleared_value host e : value (cleared host e) = before_sel e ++ below_sel e.
Proof. done. Qed.

Lemma getCursor_From_pos_after e :
  getCursor From e = pos_after (before_sel e) origin.
Proof. done. Qed.

(** The world in which the parts have arrived: what the loop left alone,
    where the cursor object is and which calls were made. *)
Lemma arrived_frame e parts w :
  is_Some (the_editor (arrived e parts w))
  ∧ heap (arrived e parts w)
    = <[outputPos_of w := pos_after (text_of parts) (getCursor From e)]>
        (heap w ++ [getCursor From e; getCursor To e; placeholder_end e;
                    getCursor From e])
  ∧ notices (arrived e parts w) = notices w
  ∧ console (arrived e parts w) = console w
  ∧ chat_calls (arrived e parts w)
    = chat_calls w ++ [request_of (settings w) (getSelection e)]
  ∧ settings (arrived e parts w) = settings w
  ∧ data (arrived e parts w) = data w
  ∧ edits (arrived e parts w) =
      edits w ++
      [ {| edit_text := PLACEHOLDER; edit_from := getCursor From e;
           edit_to := Some (getCursor To e) |};
        {| edit_text := []; edit_from := getCursor From e;
           edit_to := Some (placeholder_end e) |} ] ++
      chunk_edits (getCursor From e) parts.
Proof.
  unfold arrived.
  destruct (after_parts_frame parts (outputPos_of w) _ _ _
              (prepared_editor e w (request_of (settings w) (getSelection e)))
              (prepared_cursor e w (request_of (settings w) (getSelection e))))
    as (H1 & H2 & H3 & H4 & H5 & H6 & H7 & H8).
  rewrite H2, H3, H4, H5, H6, H7, H8. split; [done|].
  simpl. by rewrite <-(assoc_L (++)).
Qed.

(** The buffer once chunks without a carriage return have arrived. *)
Lemma arrived_exact e parts w :
  Forall (λ part, CR ∉ chunk_of part) parts →
  value <$> the_editor (arrived e parts w)
  = Some (before_sel e ++ text_of parts ++ below_sel e).
Proof.
  intros Hcr. unfold arrived.
  eapply after_parts_exact;
    [done|apply prepared_editor|apply cleared_value|].
  rewrite <-getCursor_From_pos_after. apply prepared_cursor.
Qed.

(** The text before the selection stays at the head of the buffer. *)
Lemma arrived_prefix e parts w :
  ∃ y', value <$> the_editor (arrived e parts w) = Some (before_sel e ++ y').
Proof.
  unfold arrived.
  eapply after_parts_prefix;
    [apply prepared_editor|apply cleared_value|apply prepared_cursor|].
  rewrite <-getCursor_From_pos_after. apply pos_le_refl.
Qed.

(** Nothing that was inserted is taken out again. *)
Lemma arrived_kept e parts w :
  ∃ doc,
    value <$> the_editor (arrived e parts w) = Some doc
    ∧ length doc = length (before_sel e ++ below_sel e) + length (stored_text parts)
    ∧ (before_sel e ++ below_sel e) `sublist_of` doc
    ∧ Forall (λ part, normalize_breaks (chunk_of part) `sublist_of` doc) parts.
Proof.
  unfold arrived.
  destruct (after_parts_kept parts (outputPos_of w) _ _ _
              (prepared_editor e w (request_of (settings w) (getSelection e)))
              (prepared_cursor e w (request_of (settings w) (getSelection e))))
    as (doc & H1 & H2 & H3 & H4).
  exists doc. by rewrite cleared_value in H2, H3.
Qed.

(** The catch block leaves the buffer as it finds it. *)
Lemma catch_block_editor err w :
  the_editor (final (catch_block err w)) = the_editor w.
Proof.
  unfold the_editor. by destruct (catch_block_frame err w) as (_ & -> & _).
Qed.
End run_facts.

(** ** The model at work *)

Example split_three : split LF (lit "a" ++ [LF] ++ lit "b" ++ [LF]) = [lit "a"; lit "b"; []].
Proof. reflexivity. Qed.

Example split_empty : split LF [] = [[]].
Proof. reflexivity. Qed.

Example offsetToPos_note : offsetToPos (value note) 13 = {| line := 1; ch := 5 |}.
Proof. reflexivity. Qed.

Example posToOffset_note : posToOffset (value note) {| line := 1; ch := 5 |} = 13.
Proof. reflexivity. Qed.

(** A column past the end of its line is clipped to the end of the line, a
    line past the last one to the end of the document. *)
Example posToOffset_clipped :
  posToOffset (value note) {| line := 0; ch := 50 |} = 7
  ∧ posToOffset (value note) {| line := 9; ch := 0 |} = 19.
Proof. split; reflexivity. Qed.

Example getSelection_note : getSelection note = lit "def" ++ [LF] ++ lit "ghi j".
Proof. reflexivity. Qed.

(** The worked session, answered by two chunks: the selection and the rest
    of its last line make way for the answer. *)
Example session_answered :
  value <$> the_editor (final (send_to_ollama answering session))
  = Some (lit "abc Hi" ++ [LF] ++ lit "yo" ++ [LF] ++ lit "xyz")
  ∧ notices (final (send_to_ollama answering session)) = [].
Proof. split; by vm_compute. Qed.

(** A chunk with a carriage return: the editor stores a line break where
    the loop counts none, so the cursor object is left on the first line,
    past its end, and the next chunk goes in at the end of that line. *)
Example carriage_return_chunks :
  value <$> the_editor (final cr_run) = Some (lit "ac" ++ [LF] ++ lit "b")
  ∧ heap (final cr_run) !! 0 = Some {| line := 0; ch := 4 |}.
Proof. by vm_compute. Qed.

Example normalize_breaks_three :
  normalize_breaks (lit "a" ++ [CR; LF] ++ lit "b" ++ [CR] ++ lit "c" ++ [LF])
  = lit "a" ++ [LF] ++ lit "b" ++ [LF] ++ lit "c" ++ [LF].
Proof. reflexivity. Qed.

(** * The properties of the specification *)

(** C1.  The cursor update of the loop body follows the two-case rule: when
    a chunk is applied with the cursor object at [p], the body returns and
    leaves the cursor object at column [ch p + length chunk] of the same line
    if the chunk has no line feed, and at line [line p + n], column the
    length of the text after the last line feed, if it has [n >= 1] of them. *)
Theorem C1_cursor_two_case_rule out part w e p :
  the_editor w = Some e →
  heap w !! out = Some p →
  returns (apply_chunk out part w)
  ∧ (LF ∉ chunk_of part →
     heap (final (apply_chunk out part w)) !! out
     = Some {| line := line p; ch := ch p + length (chunk_of part) |})
  ∧ (∀ pre suf, chunk_of part = pre ++ LF :: suf → LF ∉ suf →
     1 ≤ newlines (chunk_of part)
     ∧ heap (final (apply_chunk out part w)) !! out
       = Some {| line := line p + newlines (chunk_of part); ch := length suf |}).
Proof.
  intros He Hout. rewrite (apply_chunk_at out part w e p He Hout).
  unfold returns, final. cbn [fst snd].
  rewrite (after_chunk_cursor out part e p w Hout).
  rewrite pos_after_split. split; [done|]. split.
  - intros Hno. apply newlines_0 in Hno. by rewrite Hno.
  - intros pre suf Hc Hsuf. apply newlines_0 in Hsuf.
    rewrite Hc, newlines_app, newlines_LF, Hsuf, tail_line_app_LF.
    rewrite tail_line_no_LF by done.
    replace (newlines pre + 1 =? 0) with false by (symmetry; apply Nat.eqb_neq; lia).
    split; [lia|done].
Qed.

Lemma C1_cursor_two_case_rule_witness :
  returns (apply_chunk 0 (part_of (lit "ab")) empty_buffer)
  ∧ (LF ∉ chunk_of (part_of (lit "ab")) →
     heap (final (apply_chunk 0 (part_of (lit "ab")) empty_buffer)) !! 0
     = Some {| line := line origin; ch := ch origin + length (chunk_of (part_of (lit "ab"))) |})
  ∧ (∀ pre suf, chunk_of (part_of (lit "ab")) = pre ++ LF :: suf → LF ∉ suf →
     1 ≤ newlines (chunk_of (part_of (lit "ab")))
     ∧ heap (final (apply_chunk 0 (part_of (lit "ab")) empty_buffer)) !! 0
       = Some {| line := line origin + newlines (chunk_of (part_of (lit "ab")));
                 ch := length suf |}).
Proof.
  apply (C1_cursor_two_case_rule 0 (part_of (lit "ab")) empty_buffer
           {| value := []; sel_anchor := 0; sel_head := 0 |} origin);
    reflexivity.
Defined.

(** C2, as the code has it.  Applying the chunks ["Hello, "], ["world"],
    ["!\nNext line."] in order, from the cursor (0,0) on an empty buffer,
    returns with the buffer reading ["Hello, world!\nNext line."] and the
    cursor at (1, 10): ["Next line."] has ten code units. *)
Theorem C2_hello_world :
  returns hello_run
  ∧ value <$> the_editor (final hello_run) = Some hello_text
  ∧ heap (final hello_run) !! 0 = Some {| line := 1; ch := 10 |}.
Proof. by vm_compute. Qed.

(** C2, as stated, fails: the final cursor is not (1, 9). *)
Lemma C2_cursor_not_1_9 :
  ¬ (value <$> the_editor (final hello_run) = Some hello_text
     ∧ heap (final hello_run) !! 0 = Some {| line := 1; ch := 9 |}).
Proof. intros [_ H]. vm_compute in H. discriminate H. Qed.




(** C4.  When the stream ends with an error named [AbortError], after any
    number of applied chunks, the handler returns having shown exactly the
    notice "Aborted all requests": no other notice, nothing logged. *)
Theorem C4_abort_notice client w e parts err :
  the_editor w = Some e →
  getSelection e ≠ [] →
  client (request_of (settings w) (getSelection e))
    = Resolved (parts_then parts (SThrow err)) →
  name err = lit "AbortError" →
  returns (send_to_ollama client w)
  ∧ notices (final (send_to_ollama client w)) = notices w ++ [lit "Aborted all requests"]
  ∧ console (final (send_to_ollama client w)) = console w.
Proof.
  intros He Hsel Hc Hname. rewrite (send_to_ollama_run client w e He Hsel), Hc.
  simpl received. rewrite delivered_parts. simpl. rewrite app_nil_r.
  destruct (arrived_frame e parts w) as (_ & _ & Hn & Hl & _).
  rewrite catch_block_run, bool_decide_true by done.
  unfold returns, final. simpl. by rewrite Hn, Hl.
Qed.

Lemma C4_abort_notice_witness :
  returns (send_to_ollama (failing_with abort_error) session)
  ∧ notices (final (send_to_ollama (failing_with abort_error) session))
    = notices session ++ [lit "Aborted all requests"]
  ∧ console (final (send_to_ollama (failing_with abort_error) session))
    = console session.
Proof.
  apply (C4_abort_notice (failing_with abort_error) session note two_parts abort_error).
  - reflexivity.
  - vm_compute. discriminate.
  - reflexivity.
  - reflexivity.
Defined.

(** C5.  When the stream ends with an error of any other name, the handler
    returns having logged the error and shown the notice "Error
    communicating with Ollama." (with its cross mark), and nothing is rolled
    back.  After the placeholder step every call is the pure insertion of
    one chunk, in order; the buffer has grown by each chunk as the editor
    stores it, and what it held and each stored chunk are still in it.
    When no chunk holds a carriage return the buffer is the text before the
    selection, then the text of the applied chunks, then what followed the
    selection's line. *)
Theorem C5_generic_failure client w e parts err :
  the_editor w = Some e →
  getSelection e ≠ [] →
  client (request_of (settings w) (getSelection e))
    = Resolved (parts_then parts (SThrow err)) →
  name err ≠ lit "AbortError" →
  returns (send_to_ollama client w)
  ∧ notices (final (send_to_ollama client w))
    = notices w ++ [0x274C%N :: lit " Error communicating with Ollama."]
  ∧ console (final (send_to_ollama client w)) = console w ++ [LogError err]
  ∧ (∃ es,
       edits (final (send_to_ollama client w)) =
         edits w ++
         [ {| edit_text := PLACEHOLDER; edit_from := getCursor From e;
              edit_to := Some (getCursor To e) |};
           {| edit_text := []; edit_from := getCursor From e;
              edit_to := Some (placeholder_end e) |} ] ++ es
       ∧ edit_text <$> es = chunk_of <$> parts
       ∧ Forall (λ ed, edit_to ed = None) es)
  ∧ (∃ doc,
       value <$> the_editor (final (send_to_ollama client w)) = Some doc
       ∧ length doc
         = length (before_sel e ++ below_sel e) + length (stored_text parts)
       ∧ (before_sel e ++ below_sel e) `sublist_of` doc
       ∧ Forall (λ part, normalize_breaks (chunk_of part) `sublist_of` doc) parts)
  ∧ (Forall (λ part, CR ∉ chunk_of part) parts →
     value <$> the_editor (final (send_to_ollama client w))
     = Some (before_sel e ++ text_of parts ++ below_sel e)).
Proof.
  intros He Hsel Hc Hname. rewrite (send_to_ollama_run client w e He Hsel), Hc.
  simpl received. rewrite delivered_parts. simpl. rewrite app_nil_r.
  destruct (arrived_frame e parts w) as (_ & _ & Hn & Hl & _ & _ & _ & Hed).
  rewrite catch_block_editor.
  destruct (catch_block_frame err (arrived e parts w)) as (_ & _ & _ & _ & ->).
  rewrite catch_block_run, bool_decide_false by done.
  unfold returns, final. cbn [fst snd]. simpl notices. simpl console.
  rewrite Hn, Hl, Hed.
  do 3 (split; [done|]). split; [|split].
  - exists (chunk_edits (getCursor From e) parts). split; [done|].
    split; [apply chunk_edits_texts|].
    eapply Forall_impl; [apply chunk_edits_after|]. by intros ed [_ ?].
  - apply arrived_kept.
  - apply arrived_exact.
Qed.

Lemma C5_generic_failure_witness :
  returns (send_to_ollama (failing_with network_error) session)
  ∧ notices (final (send_to_ollama (failing_with network_error) session))
    = notices session ++ [0x274C%N :: lit " Error communicating with Ollama."]
  ∧ console (final (send_to_ollama (failing_with network_error) session))
    = console session ++ [LogError network_error]
  ∧ (∃ es,
       edits (final (send_to_ollama (failing_with network_error) session)) =
         edits session ++
         [ {| edit_text := PLACEHOLDER; edit_from := getCursor From note;
              edit_to := Some (getCursor To note) |};
           {| edit_text := []; edit_from := getCursor From note;
              edit_to := Some (placeholder_end note) |} ] ++ es
       ∧ edit_text <$> es = chunk_of <$> two_parts
       ∧ Forall (λ ed, edit_to ed = None) es)
  ∧ (∃ doc,
       value <$> the_editor (final (send_to_ollama (failing_with network_error) session))
       = Some doc
       ∧ length doc
         = length (before_sel note ++ below_sel note) + length (stored_text two_parts)
       ∧ (before_sel note ++ below_sel note) `sublist_of` doc
       ∧ Forall (λ part, normalize_breaks (chunk_of part) `sublist_of` doc) two_parts)
  ∧ (Forall (λ part, CR ∉ chunk_of part) two_parts →
     value <$> the_editor (final (send_to_ollama (failing_with network_error) session))
     = Some (before_sel note ++ text_of two_parts ++ below_sel note)).
Proof.
  apply (C5_generic_failure (failing_with network_error) session note two_parts
           network_error).
  - reflexivity.
  - vm_compute. discriminate.
  - reflexivity.
  - vm_compute. discriminate.
Defined.

(** C6.  When there is no active editor, or the selection is empty, the
    handler returns having shown the notice of that precondition; the
    buffer is as it was, [replaceRange] was not called and neither was the
    client's [chat]. *)
Theorem C6_precondition_failure client w :
  (the_editor w = None ∨ ∃ e, the_editor w = Some e ∧ getSelection e = []) →
  returns (send_to_ollama client w)
  ∧ notices (final (send_to_ollama client w)) = notices w ++ [precondition_notice w]
  ∧ (precondition_notice w = match the_editor w with
                             | None => lit "No active editor found."
                             | Some _ => lit "Please select some text to send to Ollama."
                             end)
  ∧ activeView (final (send_to_ollama client w)) = activeView w
  ∧ edits (final (send_to_ollama client w)) = edits w
  ∧ chat_calls (final (send_to_ollama client w)) = chat_calls w.
Proof.
  unfold send_to_ollama, precondition_notice, the_editor.
  intros [Hno|(e & He & Hsel)]; rewrite bind_run; unfold getActiveViewOfType.
  - destruct (activeView w) as [[[ed|]]|] eqn:Hv; simpl in Hno; [done|..];
      unfold returns, final, Notice, add_notice; simpl; by rewrite Hv.
  - destruct (activeView w) as [[[ed|]]|] eqn:Hv; simpl in He; [|done..].
    simplify_eq. simpl. rewrite bind_run.
    unfold editor_getSelection, with_editor, the_editor. rewrite Hv. simpl.
    by rewrite Hsel.
Qed.

Lemma C6_precondition_failure_witness :
  returns (send_to_ollama (failing_with abort_error) no_view)
  ∧ notices (final (send_to_ollama (failing_with abort_error) no_view))
    = notices no_view ++ [precondition_notice no_view]
  ∧ (precondition_notice no_view
     = match the_editor no_view with
       | None => lit "No active editor found."
       | Some _ => lit "Please select some text to send to Ollama."
       end)
  ∧ activeView (final (send_to_ollama (failing_with abort_error) no_view))
    = activeView no_view
  ∧ edits (final (send_to_ollama (failing_with abort_error) no_view)) = edits no_view
  ∧ chat_calls (final (send_to_ollama (failing_with abort_error) no_view))
    = chat_calls no_view.
Proof.
  apply (C6_precondition_failure (failing_with abort_error) no_view).
  left. reflexivity.
Defined.

(** C7.  The placeholder step returns after two [replaceRange] calls.  The
    first writes the placeholder literal over the selected range.  The
    second writes the empty string from the selection start to the end of
    its line as that line reads with the placeholder in it.  Afterwards the
    starting line holds what it held before the selection-start column and
    nothing else, and the document is the text before the selection
    followed by what came after that line. *)
Theorem C7_placeholder_step from to w e :
  the_editor w = Some e →
  heap w !! from = Some (getCursor From e) →
  heap w !! to = Some (getCursor To e) →
  returns (placeholder_step from to w)
  ∧ PLACEHOLDER = 0x23F3%N :: lit " Generating response..."
  ∧ replaceRange PLACEHOLDER (getCursor From e) (Some (getCursor To e)) (value e)
    = Some (before_sel e ++ PLACEHOLDER ++ after_sel e)
  ∧ (∃ l1,
       getLine (before_sel e ++ PLACEHOLDER ++ after_sel e) (line (getCursor From e))
       = Some l1
       ∧ edits (final (placeholder_step from to w)) =
           edits w ++
           [ {| edit_text := PLACEHOLDER; edit_from := getCursor From e;
                edit_to := Some (getCursor To e) |};
             {| edit_text := []; edit_from := getCursor From e;
                edit_to := Some {| line := line (getCursor From e);
                                   ch := length l1 |} |} ])
  ∧ (∃ l0 doc,
       getLine (value e) (line (getCursor From e)) = Some l0
       ∧ value <$> the_editor (final (placeholder_step from to w)) = Some doc
       ∧ doc = before_sel e ++ below_sel e
       ∧ getLine doc (line (getCursor From e))
         = Some (take (ch (getCursor From e)) l0)).
Proof.
  intros He Hfrom Hto. rewrite (placeholder_step_run from to w e He Hfrom Hto).
  split; [done|]. split; [done|].
  split; [apply replaceRange_offsets, sel_from_to|].
  rewrite getCursor_From. cbn [line ch]. split.
  - eexists. split; [apply getLine_after|].
    rewrite first_line_app by apply newlines_PLACEHOLDER.
    unfold final, after_placeholder, placeholder_end. cbn [snd edits].
    rewrite getCursor_From. cbn [line ch].
    by rewrite !length_app, Nat.add_assoc.
  - exists (tail_line (before_sel e) ++ first_line (drop (sel_from e) (value e))),
      (before_sel e ++ below_sel e).
    split.
    { rewrite <-(take_drop (sel_from e) (value e)) at 1. apply getLine_after. }
    split; [done|]. split; [done|].
    rewrite getLine_after, take_app_length. unfold below_sel.
    by rewrite first_line_drop, app_nil_r.
Qed.

Lemma C7_placeholder_step_witness :
  returns (placeholder_step 0 1 session_with_cursors)
  ∧ PLACEHOLDER = 0x23F3%N :: lit " Generating response..."
  ∧ replaceRange PLACEHOLDER (getCursor From note) (Some (getCursor To note))
      (value note)
    = Some (before_sel note ++ PLACEHOLDER ++ after_sel note)
  ∧ (∃ l1,
       getLine (before_sel note ++ PLACEHOLDER ++ after_sel note)
         (line (getCursor From note))
       = Some l1
       ∧ edits (final (placeholder_step 0 1 session_with_cursors)) =
           edits session_with_cursors ++
           [ {| edit_text := PLACEHOLDER; edit_from := getCursor From note;
                edit_to := Some (getCursor To note) |};
             {| edit_text := []; edit_from := getCursor From note;
                edit_to := Some {| line := line (getCursor From note);
                                   ch := length l1 |} |} ])
  ∧ (∃ l0 doc,
       getLine (value note) (line (getCursor From note)) = Some l0
       ∧ value <$> the_editor (final (placeholder_step 0 1 session_with_cursors))
         = Some doc
       ∧ doc = before_sel note ++ below_sel note
       ∧ getLine doc (line (getCursor From note))
         = Some (take (ch (getCursor From note)) l0)).
Proof.
  apply (C7_placeholder_step 0 1 session_with_cursors note); reflexivity.
Defined.

(** C8.  Saving the settings [{model: m, systemPrompt: p}] and loading
    them again gives exactly that object, for every [m] and [p] and so for
    "m1" and "p1"; loading when nothing was saved gives the defaults,
    model "llama3.2" and the empty system prompt; and loading over stored data
    takes each of the two fields from the stored data when it is there and
    from the defaults otherwise. *)
Theorem C8_settings_round_trip :
  (∀ w (m p : jsstring),
     let s : obj := {[ "model"%string := m; "systemPrompt"%string := p ]} in
     let w1 := final (saveSettings (set_settings s w)) in
     returns (saveSettings (set_settings s w))
     ∧ returns (loadSettings w1)
     ∧ settings (final (loadSettings w1)) = s)
  ∧ (∀ w, returns (loadSettings (set_data None w))
          ∧ settings (final (loadSettings (set_data None w))) = DEFAULT_SETTINGS)
  ∧ DEFAULT_SETTINGS
    = {[ "model"%string := lit "llama3.2"; "systemPrompt"%string := [] ]}
  ∧ (∀ w (d : obj) k,
       k = "model"%string ∨ k = "systemPrompt"%string →
       settings (final (loadSettings (set_data (Some d) w))) !! k
       = match d !! k with
         | Some v => Some v
         | None => DEFAULT_SETTINGS !! k
         end).
Proof.
  split; [|split; [|split]].
  - intros w m p s w1. split; [done|]. split; [done|].
    unfold w1. rewrite saveSettings_run, loadSettings_run.
    unfold final. cbn [snd settings set_settings set_data data].
    apply map_eq. intros k.
    rewrite Object_assign_lookup. destruct (s !! k) eqn:E; [done|].
    unfold s in E. unfold DEFAULT_SETTINGS.
    destruct (decide (k = "model"%string)) as [->|Hm];
      [by rewrite lookup_insert_eq in E|].
    destruct (decide (k = "systemPrompt"%string)) as [->|Hp].
    + by rewrite lookup_insert_ne, lookup_singleton_eq in E.
    + by rewrite !lookup_insert_ne, !lookup_singleton_ne.
  - intros w. split; [done|]. rewrite loadSettings_run.
    unfold final. cbn [snd settings set_settings set_data data].
    apply map_eq. intros k. by rewrite Object_assign_lookup.
  - done.
  - intros w d k _. rewrite loadSettings_run.
    unfold final. cbn [snd settings set_settings set_data data].
    by rewrite Object_assign_lookup.
Qed.

(** C9.  The handler calls the client once, with a request whose [model] is
    the stored model setting and whose [messages] hold exactly one message:
    role "user", content the stored system prompt, then two line feeds,
    then the text that was selected when the handler was invoked. *)
Theorem C9_request client w e m sp :
  the_editor w = Some e →
  getSelection e ≠ [] →
  settings w !! "model"%string = Some m →
  settings w !! "systemPrompt"%string = Some sp →
  returns (send_to_ollama client w)
  ∧ chat_calls (final (send_to_ollama client w)) =
      chat_calls w ++
      [ {| model := Str m;
           messages := [ {| role := lit "user";
                            content := sp ++ [LF; LF] ++ getSelection e |} ];
           stream := true |} ].
Proof.
  intros He Hsel Hm Hsp.
  destruct (send_to_ollama_frame client w e He Hsel) as (Hret & _ & _ & Hcalls & _).
  split; [done|]. rewrite Hcalls.
  destruct (arrived_frame e (received (client (request_of (settings w) (getSelection e)))).1 w)
    as (_ & _ & _ & _ & -> & _).
  unfold request_of, get_prop.
  rewrite Hm, Hsp. unfold js_add. by rewrite <-(assoc_L (++)).
Qed.

Lemma C9_request_witness :
  returns (send_to_ollama answering session)
  ∧ chat_calls (final (send_to_ollama answering session)) =
      chat_calls session ++
      [ {| model := Str (lit "llama3.2");
           messages := [ {| role := lit "user";
                            content := [] ++ [LF; LF] ++ getSelection note |} ];
           stream := true |} ].
Proof.
  apply (C9_request answering session note (lit "llama3.2") []).
  - reflexivity.
  - vm_compute. discriminate.
  - reflexivity.
  - reflexivity.
Defined.

(** C10.  [outputPos] is a new object holding a copy of the selection
    start: at the [try] both [from] and [outputPos] read the selection
    start and they are different objects.  So whatever the client delivers,
    [from] still reads the selection start when the handler returns, and
    every chunk was inserted at a position at or after the selection start. *)
Theorem C10_selection_start_kept client w e :
  the_editor w = Some e →
  getSelection e ≠ [] →
  let from := length (heap w) in
  let outputPos := outputPos_of w in
  let parts := (received (client (request_of (settings w) (getSelection e)))).1 in
  (∃ w0 s msg,
     send_to_ollama client w
     = try_catch (try_block client s msg outputPos) catch_block w0
     ∧ heap w0 !! from = Some (getCursor From e)
     ∧ heap w0 !! outputPos = Some (getCursor From e)
     ∧ outputPos ≠ from)
  ∧ returns (send_to_ollama client w)
  ∧ heap (final (send_to_ollama client w)) !! from = Some (getCursor From e)
  ∧ ∃ es,
      edits (final (send_to_ollama client w)) =
        edits w ++
        [ {| edit_text := PLACEHOLDER; edit_from := getCursor From e;
             edit_to := Some (getCursor To e) |};
          {| edit_text := []; edit_from := getCursor From e;
             edit_to := Some (placeholder_end e) |} ] ++ es
      ∧ edit_text <$> es = chunk_of <$> parts
      ∧ Forall (λ ed, pos_le (getCursor From e) (edit_from ed)) es.
Proof.
  intros He Hsel from outputPos parts.
  destruct (send_to_ollama_frame client w e He Hsel) as (Hret & _ & Hheap & _ & Hedits).
  fold parts in Hheap, Hedits.
  assert (outputPos ≠ from) as Hne by (unfold outputPos, outputPos_of, from; lia).
  split; [|split; [done|split]].
  - eexists (prepared e w), _, _.
    split; [by apply send_to_ollama_prepared|].
    unfold from, outputPos, outputPos_of. simpl.
    split; [by apply list_lookup_middle|].
    split; [by rewrite lookup_app_r, Nat.add_comm, Nat.add_sub by lia|lia].
  - rewrite Hheap.
    destruct (arrived_frame e parts w) as (_ & -> & _).
    fold outputPos. rewrite list_lookup_insert_ne by done.
    by apply list_lookup_middle.
  - exists (chunk_edits (getCursor From e) parts).
    rewrite Hedits.
    destruct (arrived_frame e parts w) as (_ & _ & _ & _ & _ & _ & _ & ->).
    split; [done|].
    split; [apply chunk_edits_texts|].
    eapply Forall_impl; [apply chunk_edits_after|]. by intros ed [? _].
Qed.

Lemma C10_selection_start_kept_witness :
  let from := length (heap session) in
  let outputPos := outputPos_of session in
  let parts :=
    (received (answering (request_of (settings session) (getSelection note)))).1 in
  (∃ w0 s msg,
     send_to_ollama answering session
     = try_catch (try_block answering s msg outputPos) catch_block w0
     ∧ heap w0 !! from = Some (getCursor From note)
     ∧ heap w0 !! outputPos = Some (getCursor From note)
     ∧ outputPos ≠ from)
  ∧ returns (send_to_ollama answering session)
  ∧ heap (final (send_to_ollama answering session)) !! from
    = Some (getCursor From note)
  ∧ ∃ es,
      edits (final (send_to_ollama answering session)) =
        edits session ++
        [ {| edit_text := PLACEHOLDER; edit_from := getCursor From note;
             edit_to := Some (getCursor To note) |};
          {| edit_text := []; edit_from := getCursor From note;
             edit_to := Some (placeholder_end note) |} ] ++ es
      ∧ edit_text <$> es = chunk_of <$> parts
      ∧ Forall (λ ed, pos_le (getCursor From note) (edit_from ed)) es.
Proof.
  apply (C10_selection_start_kept answering session note).
  - reflexivity.
  - vm_compute. discriminate.
Defined.

(** * Further properties of the code *)

Section further_facts.
Implicit Types (w : World) (e : Editor) (s : obj).

Lemma send_to_ollama_no_editor client w :
  the_editor w = None → send_to_ollama client w = (Ok (), add_notice NO_EDITOR w).
Proof.
  unfold send_to_ollama, the_editor. intros Hno.
  rewrite bind_run. unfold getActiveViewOfType.
  by destruct (activeView w) as [[[ed|]]|].
Qed.

Lemma send_to_ollama_no_selection client w e :
  the_editor w = Some e →
  getSelection e = [] →
  send_to_ollama client w = (Ok (), add_notice NO_SELECTION w).
Proof.
  intros He Hsel. unfold send_to_ollama.
  rewrite bind_run. unfold getActiveViewOfType.
  rewrite (the_editor_view w e He), bind_run.
  unfold editor_getSelection, with_editor. rewrite He. simpl. by rewrite Hsel.
Qed.

(** What the catch block adds. *)
Lemma catch_block_effects err w :
  notices (final (catch_block err w)) = notices w ++ [notice_of err]
  ∧ console (final (catch_block err w)) = console w ++ log_of err
  ∧ settings (final (catch_block err w)) = settings w
  ∧ data (final (catch_block err w)) = data w.
Proof.
  rewrite catch_block_run. unfold notice_of, log_of.
  case_bool_decide; simpl; by rewrite ?app_nil_r.
Qed.

(** The three ways the handler can go. *)
Lemma send_to_ollama_cases client w :
  send_to_ollama client w = (Ok (), add_notice NO_EDITOR w)
  ∨ send_to_ollama client w = (Ok (), add_notice NO_SELECTION w)
  ∨ ∃ e parts,
      the_editor w = Some e ∧ getSelection e ≠ []
      ∧ (send_to_ollama client w = (Ok (), arrived e parts w)
         ∨ ∃ err, send_to_ollama client w = catch_block err (arrived e parts w)).
Proof.
  destruct (the_editor w) as [e|] eqn:He;
    [|left; by apply send_to_ollama_no_editor].
  destruct (decide (getSelection e = [])) as [Hsel|Hsel];
    [right; left; by eapply send_to_ollama_no_selection|].
  right; right.
  exists e, (received (client (request_of (settings w) (getSelection e)))).1.
  split; [done|]. split; [done|].
  rewrite (send_to_ollama_run client w e He Hsel).
  destruct (received (client (request_of (settings w) (getSelection e)))).2 as [err|];
    [right; by exists err|by left].
Qed.

(** A selection cuts the document in three. *)
Lemma selection_cut e : value e = before_sel e ++ getSelection e ++ after_sel e.
Proof.
  unfold before_sel, getSelection, after_sel.
  pose proof (sel_from_to e) as Hle.
  replace (drop (sel_to e) (value e))
    with (drop (sel_to e - sel_from e) (drop (sel_from e) (value e))).
  - by rewrite take_drop, take_drop.
  - rewrite drop_drop. f_equal. lia.
Qed.

Lemma newlines_first_line (z : jsstring) : newlines (first_line z) = 0.
Proof.
  induction z as [|a r IH]; [done|].
  destruct (decide (a = LF)) as [->|Ha]; [done|].
  by rewrite first_line_other, newlines_other.
Qed.

Lemma first_line_prefix (z : jsstring) :
  z = first_line z ++ drop (length (first_line z)) z.
Proof.
  induction z as [|a r IH]; [done|].
  destruct (decide (a = LF)) as [->|Ha]; [done|].
  rewrite first_line_other by done. simpl. by rewrite <-IH.
Qed.

Lemma after_first_line (z : jsstring) :
  drop (length (first_line z)) z = [] ∨ ∃ r, drop (length (first_line z)) z = LF :: r.
Proof.
  induction z as [|a r IH]; [by left|].
  destruct (decide (a = LF)) as [->|Ha]; [right; by exists r|].
  by rewrite first_line_other.
Qed.

(** A line that ends inside a prefix of the document is a line of the prefix. *)
Lemma getLine_prefix (x y : jsstring) n :
  n < newlines x → getLine (x ++ y) n = getLine x n.
Proof.
  unfold getLine. revert n. induction x as [|a r IH]; intros n Hn; [by inversion Hn|].
  simpl app. destruct (decide (a = LF)) as [->|Ha].
  - rewrite !split_LF. rewrite newlines_LF in Hn.
    destruct n as [|n]; [done|]. simpl. apply IH. lia.
  - rewrite !split_other by done. rewrite newlines_other in Hn by done.
    destruct n as [|n]; simpl.
    + specialize (IH 0 Hn).
      pose proof (split_nonempty LF (r ++ y)). pose proof (split_nonempty LF r).
      destruct (split LF (r ++ y)), (split LF r); simplify_eq/=; done.
    + specialize (IH (S n) Hn).
      pose proof (split_nonempty LF (r ++ y)). pose proof (split_nonempty LF r).
      destruct (split LF (r ++ y)), (split LF r); simplify_eq/=; done.
Qed.

(** With both fields there, the defaults add nothing on loading. *)
Lemma Object_assign_has_settings s :
  has_settings s → Object_assign ∅ [Some DEFAULT_SETTINGS; Some s] = s.
Proof.
  intros [[m Hm] [sp Hsp]]. apply map_eq. intros k.
  rewrite Object_assign_lookup. destruct (s !! k) eqn:E; [done|].
  unfold DEFAULT_SETTINGS.
  destruct (decide (k = "model"%string)) as [->|Hk]; [congruence|].
  destruct (decide (k = "systemPrompt"%string)) as [->|Hk']; [congruence|].
  by rewrite !lookup_insert_ne, !lookup_singleton_ne.
Qed.

Lemma has_settings_insert s f v : has_settings s → has_settings (<[f := v]> s).
Proof.
  intros [Hm Hsp]. split.
  - destruct (decide (f = "model"%string)) as [->|Hf];
      [rewrite lookup_insert_eq; by eexists|by rewrite lookup_insert_ne].
  - destruct (decide (f = "systemPrompt"%string)) as [->|Hf];
      [rewrite lookup_insert_eq; by eexists|by rewrite lookup_insert_ne].
Qed.

Lemma text_of_app (ps qs : list ChatPart) : text_of (ps ++ qs) = text_of ps ++ text_of qs.
Proof. unfold text_of. by rewrite map_app, concat_app. Qed.

(** The buffer, the settings and the stored data when the handler returns
    are those of the world in which the delivered parts have arrived. *)
Lemma send_to_ollama_final client w e :
  the_editor w = Some e →
  getSelection e ≠ [] →
  let parts := (received (client (request_of (settings w) (getSelection e)))).1 in
  the_editor (final (send_to_ollama client w)) = the_editor (arrived e parts w)
  ∧ settings (final (send_to_ollama client w)) = settings w
  ∧ data (final (send_to_ollama client w)) = data w.
Proof.
  intros He Hsel parts. rewrite (send_to_ollama_run client w e He Hsel). fold parts.
  destruct (arrived_frame e parts w) as (_ & _ & _ & _ & _ & Hs & Hd & _).
  destruct (received (client (request_of (settings w) (getSelection e)))).2 as [err|].
  - destruct (catch_block_effects err (arrived e parts w)) as (_ & _ & -> & ->).
    by rewrite catch_block_editor.
  - done.
Qed.

Lemma after_chunk_empty out part e p w :
  the_editor w = Some e →
  heap w !! out = Some p →
  chunk_of part = [] →
  the_editor (after_chunk out part e p w) = Some e
  ∧ heap (after_chunk out part e p w) = heap w.
Proof.
  intros He Hout Hc. unfold after_chunk, inserted. rewrite Hc.
  unfold the_editor. simpl. rewrite take_drop, list_insert_id by done.
  by rewrite after_edit_empty.
Qed.

(** [display] reads the settings and builds its two rows. *)
Lemma display_run containerEl w :
  display containerEl w =
    (Ok [ {| row_name := lit "AI Model";
             row_desc := lit "Model you want to use for prompting";
             row_kind := Text;
             row_placeholder := lit "Enter model name";
             row_value := get_prop (settings w) "model";
             row_field := "model" |};
          {| row_name := lit "System Prompt";
             row_desc := lit "Base instructions/personality for the AI";
             row_kind := TextArea;
             row_placeholder := lit "This is the personality of the AI";
             row_value := get_prop (settings w) "systemPrompt";
             row_field := "systemPrompt" |} ], w).
Proof. done. Qed.
End further_facts.

(** X2.  When the stream ends normally the session ends silently: no notice
    is shown and nothing is logged, whatever the chunks hold.  When no
    chunk holds a carriage return the buffer holds the text before the
    selection, then the whole answer, then what followed the selection's
    line, and [outputPos] is the position just after the answer. *)
Theorem X2_silent_success client w e parts :
  the_editor w = Some e →
  getSelection e ≠ [] →
  client (request_of (settings w) (getSelection e))
    = Resolved (parts_then parts SDone) →
  returns (send_to_ollama client w)
  ∧ notices (final (send_to_ollama client w)) = notices w
  ∧ console (final (send_to_ollama client w)) = console w
  ∧ (Forall (λ part, CR ∉ chunk_of part) parts →
     value <$> the_editor (final (send_to_ollama client w))
     = Some (before_sel e ++ text_of parts ++ below_sel e)
     ∧ heap (final (send_to_ollama client w)) !! outputPos_of w
       = Some (offsetToPos (before_sel e ++ text_of parts ++ below_sel e)
                 (length (before_sel e) + length (text_of parts)))).
Proof.
  intros He Hsel Hc. rewrite (send_to_ollama_run client w e He Hsel), Hc.
  simpl received. rewrite delivered_parts. simpl. rewrite app_nil_r.
  destruct (arrived_frame e parts w) as (_ & Hh & Hn & Hl & _).
  unfold returns, final. cbn [fst snd].
  do 3 (split; [done|]). intros Hcr. split; [by apply arrived_exact|].
  rewrite Hh. unfold offsetToPos.
  rewrite (assoc_L (++)), <-length_app, take_app_length, pos_after_app.
  rewrite <-getCursor_From_pos_after.
  apply list_lookup_insert_eq. unfold outputPos_of.
  rewrite length_app. simpl. lia.
Qed.

Lemma X2_silent_success_witness :
  returns (send_to_ollama answering session)
  ∧ notices (final (send_to_ollama answering session)) = notices session
  ∧ console (final (send_to_ollama answering session)) = console session
  ∧ (Forall (λ part, CR ∉ chunk_of part) two_parts →
     value <$> the_editor (final (send_to_ollama answering session))
     = Some (before_sel note ++ text_of two_parts ++ below_sel note)
     ∧ heap (final (send_to_ollama answering session)) !! outputPos_of session
       = Some (offsetToPos (before_sel note ++ text_of two_parts ++ below_sel note)
                 (length (before_sel note) + length (text_of two_parts)))).
Proof.
  apply (X2_silent_success answering session note two_parts).
  - reflexivity.
  - vm_compute. discriminate.
  - reflexivity.
Defined.

(** X3.  When [ollama.chat] is rejected before any chunk arrives, the
    request has been made once, the selection and the rest of its line are
    already gone from the buffer and are not put back, and the catch block
    reports the error: the abort notice for an [AbortError], the generic
    notice and a log entry for any other. *)
Theorem X3_rejected_before_streaming client w e err :
  the_editor w = Some e →
  getSelection e ≠ [] →
  client (request_of (settings w) (getSelection e)) = Rejected err →
  returns (send_to_ollama client w)
  ∧ chat_calls (final (send_to_ollama client w))
    = chat_calls w ++ [request_of (settings w) (getSelection e)]
  ∧ value <$> the_editor (final (send_to_ollama client w))
    = Some (before_sel e ++ below_sel e)
  ∧ notices (final (send_to_ollama client w)) = notices w ++ [notice_of err]
  ∧ console (final (send_to_ollama client w)) = console w ++ log_of err.
Proof.
  intros He Hsel Hc. rewrite (send_to_ollama_run client w e He Hsel), Hc.
  simpl received. cbn [fst snd].
  destruct (catch_block_frame err (arrived e [] w)) as (Hret & _ & _ & Hcalls & _).
  destruct (catch_block_effects err (arrived e [] w)) as (Hn & Hl & _).
  split; [done|]. rewrite Hcalls, Hn, Hl, catch_block_editor.
  done.
Qed.

Lemma X3_rejected_before_streaming_witness :
  returns (send_to_ollama (rejecting network_error) session)
  ∧ chat_calls (final (send_to_ollama (rejecting network_error) session))
    = chat_calls session ++ [request_of (settings session) (getSelection note)]
  ∧ value <$> the_editor (final (send_to_ollama (rejecting network_error) session))
    = Some (before_sel note ++ below_sel note)
  ∧ notices (final (send_to_ollama (rejecting network_error) session))
    = notices session ++ [notice_of network_error]
  ∧ console (final (send_to_ollama (rejecting network_error) session))
    = console session ++ log_of network_error.
Proof.
  apply (X3_rejected_before_streaming (rejecting network_error) session note
           network_error).
  - reflexivity.
  - vm_compute. discriminate.
  - reflexivity.
Defined.

(** X4.  What the handler replaces.  The document is the text before the
    selection, the selection, the rest of the selection's last line, and
    what follows that line.  When no delivered chunk holds a carriage
    return, the document is, when the handler returns, the text before the
    selection, the delivered answer, and what followed that line.  So
    the answer takes the place of the selection together with the rest of
    its last line, and of the selection alone when the selection ends at
    the end of a line. *)
Theorem X4_replaced_text client w e :
  the_editor w = Some e →
  getSelection e ≠ [] →
  let parts := (received (client (request_of (settings w) (getSelection e)))).1 in
  let lost := first_line (after_sel e) in
  Forall (λ part, CR ∉ chunk_of part) parts →
  value e = before_sel e ++ getSelection e ++ lost ++ below_sel e
  ∧ value <$> the_editor (final (send_to_ollama client w))
    = Some (before_sel e ++ text_of parts ++ below_sel e)
  ∧ (LF ∉ lost)
  ∧ (below_sel e = [] ∨ ∃ r, below_sel e = LF :: r)
  ∧ (lost = [] →
     value <$> the_editor (final (send_to_ollama client w))
     = Some (before_sel e ++ text_of parts ++ after_sel e)).
Proof.
  intros He Hsel parts lost Hcr.
  destruct (send_to_ollama_final client w e He Hsel) as (Hed & _).
  fold parts in Hed.
  assert (value <$> the_editor (final (send_to_ollama client w))
          = Some (before_sel e ++ text_of parts ++ below_sel e)) as Hdoc
    by (rewrite Hed; by apply arrived_exact).
  split; [|split; [done|split; [|split]]].
  - rewrite (selection_cut e) at 1. unfold lost, below_sel.
    by rewrite <-first_line_prefix.
  - apply newlines_0, newlines_first_line.
  - apply after_first_line.
  - intros Hlost. rewrite Hdoc. unfold below_sel. fold lost. by rewrite Hlost.
Qed.

Lemma X4_replaced_text_witness :
  let parts :=
    (received (answering (request_of (settings session) (getSelection note)))).1 in
  let lost := first_line (after_sel note) in
  value note = before_sel note ++ getSelection note ++ lost ++ below_sel note
  ∧ value <$> the_editor (final (send_to_ollama answering session))
    = Some (before_sel note ++ text_of parts ++ below_sel note)
  ∧ (LF ∉ lost)
  ∧ (below_sel note = [] ∨ ∃ r, below_sel note = LF :: r)
  ∧ (lost = [] →
     value <$> the_editor (final (send_to_ollama answering session))
     = Some (before_sel note ++ text_of parts ++ after_sel note)).
Proof.
  apply (X4_replaced_text answering session note).
  - reflexivity.
  - vm_compute. discriminate.
  - apply (bool_decide_unpack _). by vm_compute.
Defined.

(** X5.  For an answer without carriage returns only its text matters, not
    how the client cuts it into chunks: two streams whose parts carry the
    same text and that go on in the same way leave the same buffer text,
    the same position objects, the same notices and the same console. *)
Theorem X5_chunking_invariance client1 client2 w e parts1 parts2 tail :
  the_editor w = Some e →
  getSelection e ≠ [] →
  client1 (request_of (settings w) (getSelection e))
    = Resolved (parts_then parts1 tail) →
  client2 (request_of (settings w) (getSelection e))
    = Resolved (parts_then parts2 tail) →
  text_of parts1 = text_of parts2 →
  Forall (λ part, CR ∉ chunk_of part) (parts1 ++ (delivered tail).1) →
  Forall (λ part, CR ∉ chunk_of part) (parts2 ++ (delivered tail).1) →
  value <$> the_editor (final (send_to_ollama client1 w))
    = value <$> the_editor (final (send_to_ollama client2 w))
  ∧ heap (final (send_to_ollama client1 w)) = heap (final (send_to_ollama client2 w))
  ∧ notices (final (send_to_ollama client1 w))
    = notices (final (send_to_ollama client2 w))
  ∧ console (final (send_to_ollama client1 w))
    = console (final (send_to_ollama client2 w)).
Proof.
  intros He Hsel Hc1 Hc2 Htext Hcr1 Hcr2.
  destruct (send_to_ollama_final client1 w e He Hsel) as (Hed1 & _).
  destruct (send_to_ollama_final client2 w e He Hsel) as (Hed2 & _).
  rewrite Hed1, Hed2.
  rewrite (send_to_ollama_run client1 w e He Hsel), Hc1.
  rewrite (send_to_ollama_run client2 w e He Hsel), Hc2.
  rewrite ?Hc1, ?Hc2. simpl received. rewrite !delivered_parts. cbn [fst snd].
  set (ps1 := parts1 ++ (delivered tail).1) in *.
  set (ps2 := parts2 ++ (delivered tail).1) in *.
  assert (text_of ps1 = text_of ps2) as Ht
    by (unfold ps1, ps2; by rewrite !text_of_app, Htext).
  destruct (arrived_frame e ps1 w) as (_ & Hh1 & Hn1 & Hl1 & _).
  destruct (arrived_frame e ps2 w) as (_ & Hh2 & Hn2 & Hl2 & _).
  split; [by rewrite !arrived_exact, Ht by done|].
  destruct (delivered tail).2 as [err|].
  - destruct (catch_block_frame err (arrived e ps1 w)) as (_ & _ & -> & _).
    destruct (catch_block_frame err (arrived e ps2 w)) as (_ & _ & -> & _).
    destruct (catch_block_effects err (arrived e ps1 w)) as (-> & -> & _).
    destruct (catch_block_effects err (arrived e ps2 w)) as (-> & -> & _).
    by rewrite Hh1, Hh2, Hn1, Hn2, Hl1, Hl2, Ht.
  - unfold final. cbn [snd]. by rewrite Hh1, Hh2, Hn1, Hn2, Hl1, Hl2, Ht.
Qed.

Lemma X5_chunking_invariance_witness :
  value <$> the_editor (final (send_to_ollama answering session))
    = value <$> the_editor (final (send_to_ollama answering_otherwise session))
  ∧ heap (final (send_to_ollama answering session))
    = heap (final (send_to_ollama answering_otherwise session))
  ∧ notices (final (send_to_ollama answering session))
    = notices (final (send_to_ollama answering_otherwise session))
  ∧ console (final (send_to_ollama answering session))
    = console (final (send_to_ollama answering_otherwise session)).
Proof.
  apply (X5_chunking_invariance answering answering_otherwise session note
           two_parts other_parts SDone).
  - reflexivity.
  - vm_compute. discriminate.
  - reflexivity.
  - reflexivity.
  - reflexivity.
  - apply (bool_decide_unpack _). by vm_compute.
  - apply (bool_decide_unpack _). by vm_compute.
Defined.

(** X6.  An empty chunk changes nothing: the loop body returns with the
    buffer, the selection and every position object, the cursor included,
    as they were. *)
Theorem X6_empty_chunk out part w e p :
  the_editor w = Some e →
  heap w !! out = Some p →
  chunk_of part = [] →
  returns (apply_chunk out part w)
  ∧ the_editor (final (apply_chunk out part w)) = Some e
  ∧ heap (final (apply_chunk out part w)) = heap w.
Proof.
  intros He Hout Hc. rewrite (apply_chunk_at out part w e p He Hout).
  unfold returns, final. cbn [fst snd].
  by destruct (after_chunk_empty out part e p w He Hout Hc) as [-> ->].
Qed.

Lemma X6_empty_chunk_witness :
  returns (apply_chunk 0 (part_of []) empty_buffer)
  ∧ the_editor (final (apply_chunk 0 (part_of []) empty_buffer))
    = Some {| value := []; sel_anchor := 0; sel_head := 0 |}
  ∧ heap (final (apply_chunk 0 (part_of []) empty_buffer)) = heap empty_buffer.
Proof.
  apply (X6_empty_chunk 0 (part_of []) empty_buffer
           {| value := []; sel_anchor := 0; sel_head := 0 |} origin);
    reflexivity.
Defined.

(** X7.  The handler never touches the settings or the stored plugin data,
    whichever way it goes. *)
Theorem X7_handler_keeps_settings client w :
  settings (final (send_to_ollama client w)) = settings w
  ∧ data (final (send_to_ollama client w)) = data w.
Proof.
  destruct (send_to_ollama_cases client w)
    as [->|[->|(e & parts & _ & _ & [->|[err ->]])]]; try done.
  - by destruct (arrived_frame e parts w) as (_ & _ & _ & _ & _ & Hs & Hd & _).
  - destruct (catch_block_effects err (arrived e parts w)) as (_ & _ & -> & ->).
    by destruct (arrived_frame e parts w) as (_ & _ & _ & _ & _ & Hs & Hd & _).
Qed.

(** X8.  One invocation shows at most one notice, makes at most one call to
    the client and logs at most one entry, and it logs only when it also
    shows a notice. *)
Theorem X8_at_most_one client w :
  ∃ ns ls cs,
    notices (final (send_to_ollama client w)) = notices w ++ ns
    ∧ console (final (send_to_ollama client w)) = console w ++ ls
    ∧ chat_calls (final (send_to_ollama client w)) = chat_calls w ++ cs
    ∧ length ns ≤ 1 ∧ length ls ≤ length ns ∧ length cs ≤ 1.
Proof.
  destruct (send_to_ollama_cases client w)
    as [->|[->|(e & parts & _ & _ & [->|[err ->]])]].
  - exists [NO_EDITOR], [], []. simpl. rewrite !app_nil_r. repeat split; lia.
  - exists [NO_SELECTION], [], []. simpl. rewrite !app_nil_r. repeat split; lia.
  - destruct (arrived_frame e parts w) as (_ & _ & Hn & Hl & Hc & _).
    exists [], [], [request_of (settings w) (getSelection e)].
    unfold final. cbn [snd]. rewrite Hn, Hl, Hc, !app_nil_r.
    repeat split; simpl; lia.
  - destruct (catch_block_effects err (arrived e parts w)) as (-> & -> & _).
    destruct (catch_block_frame err (arrived e parts w)) as (_ & _ & _ & -> & _).
    destruct (arrived_frame e parts w) as (_ & _ & -> & -> & -> & _).
    exists [notice_of err], (log_of err), [request_of (settings w) (getSelection e)].
    repeat split; simpl; try lia.
    unfold log_of. case_bool_decide; simpl; lia.
Qed.

(** X9.  The first request after the plugin has loaded: [onload] loads the
    settings before the handler can run, so the request carries the stored
    model and system prompt, and for each one that was never stored its
    default, the model "llama3.2" and the empty system prompt. *)
Theorem X9_request_after_load client w e :
  the_editor w = Some e →
  getSelection e ≠ [] →
  returns (loadSettings w)
  ∧ returns (send_to_ollama client (final (loadSettings w)))
  ∧ chat_calls (final (send_to_ollama client (final (loadSettings w)))) =
      chat_calls w ++
      [ {| model := Str (stored_or (lit "llama3.2") "model" (data w));
           messages :=
             [ {| role := lit "user";
                  content := stored_or [] "systemPrompt" (data w)
                             ++ [LF; LF] ++ getSelection e |} ];
           stream := true |} ].
Proof.
  intros He Hsel. split; [done|].
  assert (the_editor (final (loadSettings w)) = Some e) as He' by done.
  destruct (send_to_ollama_frame client _ e He' Hsel) as (Hret & _ & _ & Hcalls & _).
  split; [done|]. rewrite Hcalls.
  destruct (arrived_frame e
              (received (client (request_of (settings (final (loadSettings w)))
                                   (getSelection e)))).1
              (final (loadSettings w))) as (_ & _ & _ & _ & -> & _).
  rewrite loadSettings_run.
  unfold final, request_of, get_prop.
  cbn [snd chat_calls settings set_settings].
  rewrite !Object_assign_lookup. unfold stored_or, DEFAULT_SETTINGS.
  destruct (data w) as [d|].
  - destruct (d !! "model"%string), (d !! "systemPrompt"%string);
      unfold js_add; by rewrite <-?(assoc_L (++)).
  - done.
Qed.

Lemma X9_request_after_load_witness :
  returns (loadSettings session_stored)
  ∧ returns (send_to_ollama answering (final (loadSettings session_stored)))
  ∧ chat_calls (final (send_to_ollama answering (final (loadSettings session_stored)))) =
      chat_calls session_stored ++
      [ {| model := Str (stored_or (lit "llama3.2") "model" (data session_stored));
           messages :=
             [ {| role := lit "user";
                  content := stored_or [] "systemPrompt" (data session_stored)
                             ++ [LF; LF] ++ getSelection note |} ];
           stream := true |} ].
Proof.
  apply (X9_request_after_load answering session_stored note).
  - reflexivity.
  - vm_compute. discriminate.
Defined.


(** X11.  An edit in the settings tab survives a reload: after [onChange]
    of a field and a later [loadSettings], the settings are the old ones
    with that field set to the new value, and this is what is stored. *)
Theorem X11_edit_survives_reload field v w :
  has_settings (settings w) →
  returns (onChange field v w)
  ∧ returns (loadSettings (final (onChange field v w)))
  ∧ settings (final (loadSettings (final (onChange field v w))))
    = <[field := v]> (settings w)
  ∧ settings (final (loadSettings (final (onChange field v w)))) !! field = Some v
  ∧ data (final (loadSettings (final (onChange field v w))))
    = Some (<[field := v]> (settings w)).
Proof.
  intros H. rewrite onChange_run, loadSettings_run.
  unfold final. cbn [snd settings data set_settings set_data].
  rewrite Object_assign_has_settings by by apply has_settings_insert.
  by rewrite lookup_insert_eq.
Qed.

Lemma X11_edit_survives_reload_witness :
  returns (onChange "model" (lit "mistral") session)
  ∧ returns (loadSettings (final (onChange "model" (lit "mistral") session)))
  ∧ settings (final (loadSettings (final (onChange "model" (lit "mistral") session))))
    = <["model"%string := lit "mistral"]> (settings session)
  ∧ settings (final (loadSettings (final (onChange "model" (lit "mistral") session))))
      !! "model"%string = Some (lit "mistral")
  ∧ data (final (loadSettings (final (onChange "model" (lit "mistral") session))))
    = Some (<["model"%string := lit "mistral"]> (settings session)).
Proof.
  apply (X11_edit_survives_reload "model" (lit "mistral") session).
  split; eexists; reflexivity.
Defined.

(** X12.  Saving and loading gives back the settings object as it was,
    with every property it had beyond the two fields too, as long as the
    two fields are there. *)
Theorem X12_save_load_identity w :
  has_settings (settings w) →
  settings (final (loadSettings (final (saveSettings w)))) = settings w
  ∧ data (final (loadSettings (final (saveSettings w)))) = Some (settings w).
Proof.
  intros H. rewrite saveSettings_run, loadSettings_run.
  unfold final. cbn [snd settings data set_settings set_data].
  by rewrite Object_assign_has_settings.
Qed.

Lemma X12_save_load_identity_witness :
  settings (final (loadSettings (final (saveSettings session)))) = settings session
  ∧ data (final (loadSettings (final (saveSettings session))))
    = Some (settings session).
Proof.
  apply (X12_save_load_identity session).
  split; eexists; reflexivity.
Defined.

(** X13.  The handler changes no line above the one the selection starts
    on, whatever the client delivers and however the stream ends. *)
Theorem X13_lines_above_kept client w e n :
  the_editor w = Some e →
  getSelection e ≠ [] →
  n < line (getCursor From e) →
  ∃ doc,
    value <$> the_editor (final (send_to_ollama client w)) = Some doc
    ∧ getLine doc n = getLine (value e) n.
Proof.
  intros He Hsel Hn. rewrite getCursor_From in Hn. cbn [line] in Hn.
  destruct (send_to_ollama_final client w e He Hsel) as (Hed & _).
  destruct (arrived_prefix e
              (received (client (request_of (settings w) (getSelection e)))).1 w)
    as (y' & Hdoc).
  eexists. split; [rewrite Hed; exact Hdoc|].
  transitivity (getLine (before_sel e) n); [by apply getLine_prefix|].
  symmetry. pose proof (selection_cut e) as Hcut.
  rewrite Hcut at 1. by apply getLine_prefix.
Qed.

Lemma X13_lines_above_kept_witness :
  ∃ doc,
    value <$> the_editor
                (final (send_to_ollama answering
                          (set_editor {| value := value note; sel_anchor := 16;
                                         sel_head := 13 |} session)))
    = Some doc
    ∧ getLine doc 0 = getLine (value {| value := value note; sel_anchor := 16;
                                        sel_head := 13 |}) 0.
Proof.
  apply (X13_lines_above_kept answering
           (set_editor {| value := value note; sel_anchor := 16; sel_head := 13 |}
              session)
           {| value := value note; sel_anchor := 16; sel_head := 13 |} 0).
  - reflexivity.
  - vm_compute. discriminate.
  - vm_compute. lia.
Defined.

(** X14.  The settings tab shows what is stored: after an edit of a field
    and a reload, [display] returns without changing anything and builds
    exactly the two rows "AI Model" and "System Prompt", whatever the
    container held before; the row of the edited field shows the new value
    and the other row shows what it showed before. *)
Theorem X14_display_after_edit containerEl field v w :
  has_settings (settings w) →
  let w' := final (loadSettings (final (onChange field v w))) in
  ∃ rows,
    display containerEl w' = (Ok rows, w')
    ∧ row_name <$> rows = [lit "AI Model"; lit "System Prompt"]
    ∧ row_field <$> rows = ["model"%string; "systemPrompt"%string]
    ∧ ∀ r, r ∈ rows →
        (row_field r = field → row_value r = Str v)
        ∧ (row_field r ≠ field → row_value r = get_prop (settings w) (row_field r)).
Proof.
  intros H w'.
  assert (settings w' = <[field := v]> (settings w)) as Hs.
  { unfold w'. rewrite onChange_run, loadSettings_run.
    unfold final. cbn [snd settings data set_settings set_data].
    by rewrite Object_assign_has_settings by by apply has_settings_insert. }
  rewrite display_run, Hs.
  eexists. split; [reflexivity|]. split; [done|]. split; [done|].
  intros r Hr.
  apply elem_of_cons in Hr as [->|Hr];
    [|apply elem_of_cons in Hr as [->|Hr]; [|by apply elem_of_nil in Hr]];
    cbn [row_field row_value]; unfold get_prop; split; intros Hf.
  - by rewrite <-Hf, lookup_insert_eq.
  - by rewrite lookup_insert_ne.
  - by rewrite <-Hf, lookup_insert_eq.
  - by rewrite lookup_insert_ne.
Qed.

Lemma X14_display_after_edit_witness :
  let w' := final (loadSettings (final (onChange "model" (lit "mistral") session))) in
  ∃ rows,
    display [] w' = (Ok rows, w')
    ∧ row_name <$> rows = [lit "AI Model"; lit "System Prompt"]
    ∧ row_field <$> rows = ["model"%string; "systemPrompt"%string]
    ∧ ∀ r, r ∈ rows →
        (row_field r = "model"%string → row_value r = Str (lit "mistral"))
        ∧ (row_field r ≠ "model"%string →
           row_value r = get_prop (settings session) (row_field r)).
Proof.
  apply (X14_display_after_edit [] "model" (lit "mistral") session).
  split; eexists; reflexivity.
Defined.
